(** * The item list controller of [src/App.tsx]

    A shallow embedding of the form state ([FormProvider]), of the event
    handlers of [App] ([addItem], [updateItem], [clearForm], [deleteItem],
    [startEdit], the pagination buttons) and of the derived view computed at
    every render ([filteredItems], [totalPages], [currentItems]).

    Conventions.
    - A JavaScript string is the sequence of its UTF-16 code units; the model
      carries the code units below 128, one [ascii] each, so [String.length]
      is [.length].
    - A JavaScript number that holds an integer is a [Z]; a number that may
      be [NaN] is an [option Z] with [None] for [NaN].
    - React state is passed explicitly: a handler receives the state of the
      render it was created in and returns the state of the next render.
      Each handler issues at most one update per state cell, so the batched
      setters are the sequential composition written here.
    - [new Date().toString()] is an input of the handlers that read the
      clock; what the engine does with such a string ([new Date(s).getTime()])
      and [String.prototype.localeCompare] are fields of [JsRuntime]. *)

From Stdlib Require Import ZArith String Ascii List Bool Lia Sorted.
From stdpp Require Import base option list gmap strings.

Local Open Scope string_scope.
Local Open Scope list_scope.

(** ** Data model *)

Inductive Priority := baixa | media | alta.

#[global] Instance Priority_eq_dec : EqDecision Priority.
Proof. solve_decision. Defined.

(** [item.prioridade === filterPriority] *)
Definition Priority_eqb (p q : Priority) : bool :=
  match p, q with
  | baixa, baixa | media, media | alta, alta => true
  | _, _ => false
  end.

Module Item.
Record t := mk {
  id : Z;
  nome : string;
  descricao : string;
  data_criacao : string;
  data_modificacao : option string;
  prioridade : Priority
}.
End Item.

#[global] Instance Item_eq_dec : EqDecision Item.t.
Proof. solve_decision. Defined.

(** The value of [FormContext]: the five state cells of [FormProvider]. *)
Module Form.
Record t := mk {
  nome : string;
  descricao : string;
  prioridade : Priority;
  editId : option Z;
  isValid : bool
}.

Definition setNome (v : string) (f : t) : t :=
  mk v (descricao f) (prioridade f) (editId f) (isValid f).
Definition setDescricao (v : string) (f : t) : t :=
  mk (nome f) v (prioridade f) (editId f) (isValid f).
Definition setPrioridade (v : Priority) (f : t) : t :=
  mk (nome f) (descricao f) v (editId f) (isValid f).
Definition setEditId (v : option Z) (f : t) : t :=
  mk (nome f) (descricao f) (prioridade f) v (isValid f).
Definition setIsValid (v : bool) (f : t) : t :=
  mk (nome f) (descricao f) (prioridade f) (editId f) v.

(** [useState('')], [useState('')], [useState('baixa')], [useState(null)],
    [useState(true)] *)
Definition initial : t := mk "" "" baixa None true.
End Form.

Inductive SortOrder := asc | desc.
Inductive ActiveFilter := priority | name | date.

(** The state cells of [App], with the form context it consumes. *)
Record AppState := mkApp {
  form : Form.t;
  items : list Item.t;
  currentPage : Z;
  filterPriority : option Priority;   (* [None] is the empty string *)
  sortOrder : SortOrder;
  activeFilter : ActiveFilter;
  searchName : string;
  showModal : bool
}.

Definition withForm (g : Form.t -> Form.t) (st : AppState) : AppState :=
  mkApp (g (form st)) (items st) (currentPage st) (filterPriority st)
        (sortOrder st) (activeFilter st) (searchName st) (showModal st).

(** [setItems(updater)] *)
Definition setItems (updater : list Item.t -> list Item.t) (st : AppState) : AppState :=
  mkApp (form st) (updater (items st)) (currentPage st) (filterPriority st)
        (sortOrder st) (activeFilter st) (searchName st) (showModal st).

Definition setCurrentPage (updater : Z -> Z) (st : AppState) : AppState :=
  mkApp (form st) (items st) (updater (currentPage st)) (filterPriority st)
        (sortOrder st) (activeFilter st) (searchName st) (showModal st).

Definition setFilterPriority (v : option Priority) (st : AppState) : AppState :=
  mkApp (form st) (items st) (currentPage st) v
        (sortOrder st) (activeFilter st) (searchName st) (showModal st).

Definition setSortOrder (v : SortOrder) (st : AppState) : AppState :=
  mkApp (form st) (items st) (currentPage st) (filterPriority st)
        v (activeFilter st) (searchName st) (showModal st).

Definition setActiveFilter (v : ActiveFilter) (st : AppState) : AppState :=
  mkApp (form st) (items st) (currentPage st) (filterPriority st)
        (sortOrder st) v (searchName st) (showModal st).

Definition setSearchName (v : string) (st : AppState) : AppState :=
  mkApp (form st) (items st) (currentPage st) (filterPriority st)
        (sortOrder st) (activeFilter st) v (showModal st).

Definition setShowModal (v : bool) (st : AppState) : AppState :=
  mkApp (form st) (items st) (currentPage st) (filterPriority st)
        (sortOrder st) (activeFilter st) (searchName st) v.

(** The first render over a collection read from local storage ([[]] when
    the key is absent). *)
Definition initialState (stored : list Item.t) : AppState :=
  mkApp Form.initial stored 1 None asc priority "" false.

(** ** Form validation *)

(** [nome.length >= 3 && descricao.length >= 3] *)
Definition valid (f : Form.t) : bool :=
  (3 <=? String.length (Form.nome f))%nat && (3 <=? String.length (Form.descricao f))%nat.

(** [validate]: stores the verdict in [isValid] and returns it. *)
Definition validate (f : Form.t) : bool * Form.t :=
  let v := valid f in (v, Form.setIsValid v f).

(** ** Handlers *)

Definition clearForm (st : AppState) : AppState :=
  setShowModal false
    (withForm (fun f => Form.setEditId None
                 (Form.setPrioridade baixa
                   (Form.setDescricao "" (Form.setNome "" f)))) st).

(** The object literal of [addItem]; [len] is [items.length] of the render. *)
Definition newItem (len : nat) (f : Form.t) (now : string) : Item.t :=
  Item.mk (Z.of_nat len + 1) (Form.nome f) (Form.descricao f) now None
          (Form.prioridade f).

Definition addItem (now : string) (st : AppState) : AppState :=
  let (ok, f1) := validate (form st) in
  let st1 := withForm (fun _ => f1) st in
  if negb ok then st1
  else
    let item := newItem (length (items st)) (form st) now in
    clearForm (setItems (fun prevItems => prevItems ++ [item]) st1).

(** [{ ...item, nome, descricao, prioridade, data_modificacao: now }] *)
Definition rewriteItem (f : Form.t) (now : string) (item : Item.t) : Item.t :=
  Item.mk (Item.id item) (Form.nome f) (Form.descricao f)
          (Item.data_criacao item) (Some now) (Form.prioridade f).

Definition updateItem (now : string) (st : AppState) : AppState :=
  let (ok, f1) := validate (form st) in
  let st1 := withForm (fun _ => f1) st in
  match negb ok, Form.editId (form st) with
  | true, _ => st1
  | false, None => st1
  | false, Some editId =>
      clearForm
        (setItems (fun prevItems =>
           map (fun item =>
                  if (Item.id item =? editId)%Z
                  then rewriteItem (form st) now item else item)
               prevItems) st1)
  end.

Definition deleteItem (id : Z) (st : AppState) : AppState :=
  setItems (fun prevItems =>
    List.filter (fun item => negb (Item.id item =? id)%Z) prevItems) st.

Definition startEdit (item : Item.t) (st : AppState) : AppState :=
  setShowModal true
    (withForm (fun f => Form.setEditId (Some (Item.id item))
                 (Form.setPrioridade (Item.prioridade item)
                   (Form.setDescricao (Item.descricao item)
                     (Form.setNome (Item.nome item) f)))) st).

(** ** Built-ins of the engine used by the render *)

(** [new Date(s).getTime()] ([None] for the [NaN] of an invalid date) and
    [a.localeCompare(b)] (negative, zero or positive). *)
Class JsRuntime := {
  Date_getTime : string -> option Z;
  String_localeCompare : string -> string -> Z
}.

(** [String.prototype.toLowerCase] on code units below 128. *)
Definition toLowerCase_unit (c : ascii) : ascii :=
  let n := N_of_ascii c in
  if ((65 <=? n) && (n <=? 90))%N then ascii_of_N (n + 32) else c.

Fixpoint toLowerCase (s : string) : string :=
  match s with
  | EmptyString => EmptyString
  | String c s' => String (toLowerCase_unit c) (toLowerCase s')
  end.

(** [s.includes(t)]: [t] occurs in [s] at some position. *)
Fixpoint includes (s t : string) : bool :=
  if String.prefix t s then true
  else match s with
       | EmptyString => false
       | String _ s' => includes s' t
       end.

(** Truthiness of a string in a condition: non-empty. *)
Definition truthy (s : string) : bool :=
  match s with EmptyString => false | String _ _ => true end.

(** Subtraction of two numbers either of which may be [NaN]. *)
Definition Number_sub (x y : option Z) : option Z :=
  match x, y with
  | Some a, Some b => Some (a - b)%Z
  | _, _ => None
  end.

(** [Array.prototype.sort(comparefn)]. The language fixes the comparison
    ([SortCompare]: a [NaN] from [comparefn] counts as [+0]) and requires the
    sort to be stable.  The model is the stable insertion sort: each element
    is inserted in front of the sorted rest of the array.  When [comparefn]
    is consistent on the array (it orders the elements as a total preorder)
    this is the result in every engine.  When it is not, as with the date
    comparison over an array that holds an unreadable date, the language
    leaves the order to the engine and an engine may return another one than
    the model: the statements about the order of a sorted view assume what
    makes the comparison consistent. *)
Definition SortCompare {A} (comparefn : A -> A -> option Z) (x y : A) : Z :=
  match comparefn x y with Some v => v | None => 0%Z end.

Fixpoint sort_insert {A} (comparefn : A -> A -> option Z) (x : A) (l : list A) : list A :=
  match l with
  | [] => [x]
  | y :: l' =>
      if (SortCompare comparefn x y <=? 0)%Z then x :: y :: l'
      else y :: sort_insert comparefn x l'
  end.

Fixpoint Array_sort {A} (comparefn : A -> A -> option Z) (l : list A) : list A :=
  match l with
  | [] => []
  | x :: l' => sort_insert comparefn x (Array_sort comparefn l')
  end.

(** [Array.prototype.slice(start, end)]: a negative index counts from the
    end, every index is clamped to the array and an empty range gives the
    empty array. *)
Definition relativeIndex (len k : Z) : Z :=
  if (k <? 0)%Z then Z.max (len + k) 0 else Z.min k len.

Definition Array_slice {A} (start final : Z) (l : list A) : list A :=
  let len := Z.of_nat (length l) in
  let k := relativeIndex len start in
  take (Z.to_nat (relativeIndex len final - k)) (drop (Z.to_nat k) l).

(** [Math.ceil(a / b)] for an integer [a] and a positive integer [b]: the
    quotient is exact or is rounded up. *)
Definition Math_ceil_div (a b : Z) : Z :=
  if (a mod b =? 0)%Z then (a / b)%Z else (a / b + 1)%Z.

(** ** The derived view *)

Definition itemsPerPage : Z := 10.

Definition indexOfLastItem (st : AppState) : Z := (currentPage st * itemsPerPage)%Z.
Definition indexOfFirstItem (st : AppState) : Z := (indexOfLastItem st - itemsPerPage)%Z.

(** The two conjuncts of the callback given to [items.filter]. *)
Definition priorityPredicate (fp : option Priority) (item : Item.t) : bool :=
  match fp with
  | Some p => Priority_eqb (Item.prioridade item) p
  | None => true
  end.

Definition namePredicate (search : string) (item : Item.t) : bool :=
  if truthy search
  then includes (toLowerCase (Item.nome item)) (toLowerCase search)
  else true.

Definition keep (st : AppState) (item : Item.t) : bool :=
  priorityPredicate (filterPriority st) item && namePredicate (searchName st) item.

Section Render.
Context `{JsRuntime}.

(** [(a, b) => a.nome.localeCompare(b.nome)] *)
Definition compareNome (a b : Item.t) : option Z :=
  Some (String_localeCompare (Item.nome a) (Item.nome b)).

(** The comparison function of the date sort. *)
Definition compareData (order : SortOrder) (a b : Item.t) : option Z :=
  let dateA := Date_getTime (Item.data_criacao a) in
  let dateB := Date_getTime (Item.data_criacao b) in
  match order with
  | asc => Number_sub dateA dateB
  | desc => Number_sub dateB dateA
  end.

(** The value of [filteredItems] once the two [if]s have run. *)
Definition filteredItems (st : AppState) : list Item.t :=
  let filtered := List.filter (keep st) (items st) in
  match activeFilter st with
  | priority => filtered
  | name => Array_sort compareNome filtered
  | date => Array_sort (compareData (sortOrder st)) filtered
  end.

Definition totalPages (st : AppState) : Z :=
  Math_ceil_div (Z.of_nat (length (filteredItems st))) itemsPerPage.

Definition currentItems (st : AppState) : list Item.t :=
  Array_slice (indexOfFirstItem st) (indexOfLastItem st) (filteredItems st).

(** ** Events *)

(** What the user can do on the page of one render.  The two handlers that
    read the clock carry what [new Date().toString()] returned.  The edit
    and delete buttons exist once per displayed item ([i] is the position in
    [currentItems]); the update and cancel buttons exist only while the
    modal is shown, and each of the three filter controls only under its
    own mode.  An event on a control that is not on the page changes
    nothing. *)
Inductive Event :=
  | ClickFilterMode (m : ActiveFilter)
  | ChangeFilterPriority (v : option Priority)
  | ChangeSearchName (v : string)
  | ChangeSortOrder (v : SortOrder)
  | ChangeNome (v : string)
  | ChangeDescricao (v : string)
  | ChangePrioridade (v : Priority)
  | ClickAdicionar (now : string)
  | ClickEditar (i : nat)
  | ClickExcluir (i : nat)
  | ClickAtualizar (now : string)
  | ClickCancelar
  | ClickAnterior
  | ClickProxima.

Definition step (st : AppState) (e : Event) : AppState :=
  match e with
  | ClickFilterMode m => setActiveFilter m st
  | ChangeFilterPriority v =>
      match activeFilter st with priority => setFilterPriority v st | _ => st end
  | ChangeSearchName v =>
      match activeFilter st with name => setSearchName v st | _ => st end
  | ChangeSortOrder v =>
      match activeFilter st with date => setSortOrder v st | _ => st end
  | ChangeNome v => withForm (Form.setNome v) st
  | ChangeDescricao v => withForm (Form.setDescricao v) st
  | ChangePrioridade v => withForm (Form.setPrioridade v) st
  | ClickAdicionar now => addItem now st
  | ClickEditar i =>
      match currentItems st !! i with
      | Some item => startEdit item st
      | None => st
      end
  | ClickExcluir i =>
      match currentItems st !! i with
      | Some item => deleteItem (Item.id item) st
      | None => st
      end
  | ClickAtualizar now => if showModal st then updateItem now st else st
  | ClickCancelar => if showModal st then clearForm st else st
  | ClickAnterior => setCurrentPage (fun prev => Z.max (prev - 1) 1) st
  | ClickProxima => setCurrentPage (fun prev => Z.min (prev + 1) (totalPages st)) st
  end.

Definition run (st : AppState) (es : list Event) : AppState := foldl step st es.

Definition isExcluir (e : Event) : bool :=
  match e with ClickExcluir _ => true | _ => false end.

(** [a] is a date string that the engine reads as a time not after that of
    [b]. *)
Definition time_le (a b : string) : Prop :=
  match Date_getTime a, Date_getTime b with
  | Some x, Some y => (x <= y)%Z
  | _, _ => False
  end.

End Render.

(** ** The render over arrays in a store

    [Array.prototype.sort] sorts the array it is called on, in place, and
    returns that same array; [filter] and [slice] build a new array.  To
    tell the two apart an array is a reference into a store, as in the
    engine, and the render is written over references. *)

Definition loc := positive.

Definition M (A : Type) : Type := gmap loc (list Item.t) -> A * gmap loc (list Item.t).

#[global] Instance M_ret : MRet M := fun A x h => (x, h).
#[global] Instance M_bind : MBind M :=
  fun A B f m h => let (a, h') := m h in f a h'.

(** The elements of the array behind a reference. *)
Definition contents (h : gmap loc (list Item.t)) (r : loc) : list Item.t :=
  default [] (h !! r).

Definition alloc (l : list Item.t) : M loc :=
  fun h => let r := fresh (dom h) in (r, <[r := l]> h).

Definition Ref_filter (p : Item.t -> bool) (r : loc) : M loc :=
  fun h => alloc (List.filter p (contents h r)) h.

Definition Ref_sort (comparefn : Item.t -> Item.t -> option Z) (r : loc) : M loc :=
  fun h => (r, <[r := Array_sort comparefn (contents h r)]> h).

Definition Ref_slice (start final : Z) (r : loc) : M loc :=
  fun h => alloc (Array_slice start final (contents h r)) h.

Definition Ref_length (r : loc) : M Z :=
  fun h => (Z.of_nat (length (contents h r)), h).

(** What one render hands to the markup. *)
Record Rendered := mkRendered {
  r_filteredItems : loc;
  r_totalPages : Z;
  r_currentItems : loc
}.

Section RenderStore.
Context `{JsRuntime}.

(** The body of [App] from [let filteredItems = ...] to [currentItems];
    [itemsRef] is the array held by the [items] state cell. *)
Definition render (itemsRef : loc) (st : AppState) : M Rendered :=
  filtered ← Ref_filter (keep st) itemsRef;
  filtered ← match activeFilter st with
              | name => Ref_sort compareNome filtered
              | _ => mret filtered
              end;
  filtered ← match activeFilter st with
              | date => Ref_sort (compareData (sortOrder st)) filtered
              | _ => mret filtered
              end;
  len ← Ref_length filtered;
  current ← Ref_slice (indexOfFirstItem st) (indexOfLastItem st) filtered;
  mret (mkRendered filtered (Math_ceil_div len itemsPerPage) current).

End RenderStore.

(** ** A runtime for the examples

    Three strings as [Date.prototype.toString] prints them, with the times
    the engine reads back from them, and the comparison of names by code
    unit, which is the sign of [localeCompare] on lower-case ASCII words. *)

Definition t1 : string := "Thu Jan 01 1970 00:00:01 GMT+0000 (Coordinated Universal Time)".
Definition t2 : string := "Thu Jan 01 1970 00:00:02 GMT+0000 (Coordinated Universal Time)".
Definition t3 : string := "Thu Jan 01 1970 00:00:03 GMT+0000 (Coordinated Universal Time)".

Definition example_getTime (s : string) : option Z :=
  if String.eqb s t1 then Some 1000%Z
  else if String.eqb s t2 then Some 2000%Z
  else if String.eqb s t3 then Some 3000%Z
  else None.

Definition example_localeCompare (a b : string) : Z :=
  match String.compare a b with
  | Lt => (-1)%Z
  | Eq => 0%Z
  | Gt => 1%Z
  end.

Definition exampleRuntime : JsRuntime :=
  {| Date_getTime := example_getTime; String_localeCompare := example_localeCompare |}.

(** Two items typed in and added. *)
Definition twoAdds : list Event :=
  [ ChangeNome "one"; ChangeDescricao "first"; ClickAdicionar t1;
    ChangeNome "two"; ChangeDescricao "second"; ChangePrioridade alta;
    ClickAdicionar t2 ].

(** Two adds, the deletion of the first item, and a third add: the third
    item gets the id of the second. *)
Definition collision : list Event :=
  [ ChangeNome "one"; ChangeDescricao "first"; ClickAdicionar t1;
    ChangeNome "two"; ChangeDescricao "second"; ClickAdicionar t1;
    ClickExcluir 0;
    ChangeNome "three"; ChangeDescricao "third"; ClickAdicionar t2 ].

(** The edit form opened on the first of the two items with id 2, and a
    new name typed into it. *)
Definition editing : AppState :=
  run (H := exampleRuntime) (initialState [])
      (collision ++ [ClickEditar 0; ChangeNome "edited"]).

(** An add refused for a name of two letters, then the edit form opened on
    an item. *)
Definition failedThenEditing : AppState :=
  run (H := exampleRuntime) (initialState [])
      (twoAdds ++ [ChangeNome "Hi"; ChangeDescricao "ok"; ClickAdicionar t3;
                   ClickEditar 0]).

(** The priority filter set to [alta], no search text. *)
Definition onlyAlta : AppState :=
  run (H := exampleRuntime) (initialState [])
      (twoAdds ++ [ChangeFilterPriority (Some alta)]).

(** An item added when the clock read [t3], edited and saved when it read
    [t1]: the clock was set back in between. *)
Definition clockSetBack : AppState :=
  run (H := exampleRuntime) (initialState [])
      [ ChangeNome "one"; ChangeDescricao "first"; ClickAdicionar t3;
        ClickEditar 0; ClickAtualizar t1 ].

(** An item found in storage, created at [t1]. *)
Definition kept : Item.t := Item.mk 5 "kept" "from storage" t1 None media.

(** A search text typed under the name mode and left there. *)
Definition leftoverSearch : list Event :=
  [ ChangeNome "apple"; ChangeDescricao "fruit"; ClickAdicionar t1;
    ChangeNome "banana"; ChangeDescricao "fruit"; ChangePrioridade alta;
    ClickAdicionar t2;
    ClickFilterMode name; ChangeSearchName "Ban"; ClickFilterMode priority ].

(** Three items, the first and the last created within the same second. *)
Definition sameSecond : AppState :=
  setActiveFilter date
    (initialState
       [ Item.mk 1 "one" "first" t2 None baixa;
         Item.mk 2 "two" "second" t1 None media;
         Item.mk 3 "three" "third" t2 None alta ]).


(** Twelve stored items, numbered 1 to 12, created in the same second. *)
Definition twelve : AppState :=
  initialState
    (map (fun k => Item.mk (Z.of_nat k) "item" "text" t1 None baixa) (seq 1 12)).

(** The page after the two adds, and the same under the name mode. *)
Definition afterTwoAdds : AppState :=
  run (H := exampleRuntime) (initialState []) twoAdds.

Definition underNameMode : AppState :=
  run (H := exampleRuntime) (initialState []) (twoAdds ++ [ClickFilterMode name]).

(** Two items of the same name and a third one, under the name mode. *)
Definition namesakes : AppState :=
  setActiveFilter name
    (initialState [ Item.mk 2 "same" "second" t2 None alta;
                    Item.mk 1 "same" "first" t1 None baixa;
                    Item.mk 3 "other" "third" t3 None media ]).

(** ** Vocabulary of the statements *)

(** Both fields of the form are at least three code units long. *)
Definition longEnough (f : Form.t) : Prop :=
  3 <= String.length (Form.nome f) /\ 3 <= String.length (Form.descricao f).

(** The handlers return nothing; what shows that one went through is the
    state it leaves: the form is back to its defaults, its validity flag is
    set and the modal is closed. *)
Definition committed (st' : AppState) : Prop :=
  form st' = Form.mk "" "" baixa None true /\ showModal st' = false.

(** The item is the target of an edit. *)
Definition targeted (editId : option Z) (item : Item.t) : bool :=
  match editId with
  | Some e => (Item.id item =? e)%Z
  | None => false
  end.

(** What an add that went through leaves in [st']: the collection of [st]
    with the new item at its end, the form back to its defaults with the
    validity flag set, the modal closed. *)
Definition added (now : string) (st st' : AppState) : Prop :=
  items st' = items st ++ [newItem (length (items st)) (form st) now] /\
  form st' = Form.mk "" "" baixa None true /\
  showModal st' = false.

(** What an update that went through leaves in [st']: the items that carry
    the edit target rewritten from the form of [st], the form back to its
    defaults with the validity flag set, the modal closed. *)
Definition updated (now : string) (st st' : AppState) : Prop :=
  (exists e, Form.editId (form st) = Some e /\
     items st' =
       map (fun item => if (Item.id item =? e)%Z
                        then rewriteItem (form st) now item else item)
           (items st)) /\
  form st' = Form.mk "" "" baixa None true /\
  showModal st' = false.

(** What a refused add or update leaves in [st']: the state [st], collection
    and form fields included, with the validity flag down. *)
Definition refused (st st' : AppState) : Prop :=
  st' = withForm (Form.setIsValid false) st.

(** The item at position [k], counting from 0, has id [k + 1]. *)
Definition sequentialIds (l : list Item.t) : Prop :=
  forall k item, l !! k = Some item -> Item.id item = (Z.of_nat k + 1)%Z.

Section Traces.
Context `{JsRuntime}.

(** How many clicks on the add button went through along a run. *)
Fixpoint successfulAdds (st : AppState) (es : list Event) : nat :=
  match es with
  | [] => 0
  | e :: es' =>
      (match e with
       | ClickAdicionar _ => if valid (form st) then 1 else 0
       | _ => 0
       end) + successfulAdds (step st e) es'
  end.

(** The clock reading an event carries, if any. *)
Definition reading (e : Event) : option string :=
  match e with
  | ClickAdicionar now | ClickAtualizar now => Some now
  | _ => None
  end.

(** [r] is a date the engine can read back, not earlier than the reading
    before it. *)
Definition notEarlier (last : option string) (r : string) : Prop :=
  match last with
  | Some l => time_le l r
  | None => time_le r r
  end.

(** The clock never goes back along the run; [last] is the reading taken
    before the run, if any. *)
Fixpoint clockMonotone (last : option string) (es : list Event) : Prop :=
  match es with
  | [] => True
  | e :: es' =>
      match reading e with
      | Some r => notEarlier last r /\ clockMonotone (Some r) es'
      | None => clockMonotone last es'
      end
  end.

(** In an item, the modification time, when there is one, is not earlier
    than the creation time. *)
Definition modifiedAfterCreated (item : Item.t) : Prop :=
  match Item.data_modificacao item with
  | Some m => time_le (Item.data_criacao item) m
  | None => True
  end.

(** Every item was created no later than the last reading of the clock, and
    modified, if at all, no earlier than it was created. *)
Definition datedBefore (last : option string) (item : Item.t) : Prop :=
  modifiedAfterCreated item /\
  exists r, last = Some r /\ time_le (Item.data_criacao item) r.

(** The store after the filter and the sort: the new array holds
    [filteredItems], and nothing that was allocated before has changed. *)
Definition afterSort (st : AppState) (h : gmap loc (list Item.t)) :
    gmap loc (list Item.t) :=
  <[fresh (dom h) := filteredItems st]> h.

End Traces.

(** Name and description of a stored item are at least three code units
    long. *)
Definition itemValid (item : Item.t) : Prop :=
  3 <= String.length (Item.nome item) /\ 3 <= String.length (Item.descricao item).

(** The item with [now] as its modification date and nothing else
    changed. *)
Definition stamped (now : string) (item : Item.t) : Item.t :=
  Item.mk (Item.id item) (Item.nome item) (Item.descricao item)
          (Item.data_criacao item) (Some now) (Item.prioridade item).

(** The item with the fields of the form and [now] as modification date. *)
Definition overwritten (nome descricao : string) (p : Priority) (now : string)
    (item : Item.t) : Item.t :=
  Item.mk (Item.id item) nome descricao (Item.data_criacao item) (Some now) p.

(** The event is typing into, or selecting in, one of the three fields of
    the form. *)
Definition isFormChange (e : Event) : bool :=
  match e with
  | ChangeNome _ | ChangeDescricao _ | ChangePrioridade _ => true
  | _ => false
  end.

(** The event is a click on one of the two paging buttons. *)
Definition isPaging (e : Event) : bool :=
  match e with
  | ClickAnterior | ClickProxima => true
  | _ => false
  end.

(** The state with the page set to [p]. *)
Definition atPage (p : Z) (st : AppState) : AppState :=
  setCurrentPage (fun _ => p) st.

(** The engine can read the creation date of the item back. *)
Definition parsable `{JsRuntime} (item : Item.t) : Prop :=
  is_Some (Date_getTime (Item.data_criacao item)).

(** The clock reading that the event carries, if any, is a date the engine
    can read back, as every [new Date().toString()] is. *)
Definition readable `{JsRuntime} (e : Event) : Prop :=
  match reading e with
  | Some r => is_Some (Date_getTime r)
  | None => True
  end.

(** The order the date sort aims at. *)
Definition byData `{JsRuntime} (order : SortOrder) (a b : Item.t) : Prop :=
  match order with
  | asc => time_le (Item.data_criacao a) (Item.data_criacao b)
  | desc => time_le (Item.data_criacao b) (Item.data_criacao a)
  end.

(** The order the name sort aims at. *)
Definition byNome `{JsRuntime} (a b : Item.t) : Prop :=
  (String_localeCompare (Item.nome a) (Item.nome b) <= 0)%Z.

(** The page numbers from 1 to [totalPages]. *)
Definition pageNumbers `{JsRuntime} (st : AppState) : list Z :=
  map (fun k => (Z.of_nat k + 1)%Z) (seq 0 (Z.to_nat (totalPages st))).

(** * Properties *)

Lemma valid_longEnough f : valid f = true <-> longEnough f.
Proof.
  unfold valid, longEnough.
  rewrite andb_true_iff, !Nat.leb_le. reflexivity.
Qed.

Lemma valid_false_iff f : valid f = false <-> ~ longEnough f.
Proof.
  rewrite <- valid_longEnough. destruct (valid f); split; congruence.
Qed.

Lemma addItem_valid now st :
  valid (form st) = true ->
  addItem now st =
    clearForm (setItems (fun prev => prev ++ [newItem (length (items st)) (form st) now])
                        (withForm (Form.setIsValid true) st)).
Proof.
  intros Hv. unfold addItem, validate. rewrite Hv. reflexivity.
Qed.

Lemma addItem_invalid now st :
  valid (form st) = false ->
  addItem now st = withForm (Form.setIsValid false) st.
Proof.
  intros Hv. unfold addItem, validate. rewrite Hv. reflexivity.
Qed.

Lemma updateItem_valid now st e :
  valid (form st) = true -> Form.editId (form st) = Some e ->
  updateItem now st =
    clearForm
      (setItems (map (fun item => if (Item.id item =? e)%Z
                                  then rewriteItem (form st) now item else item))
                (withForm (Form.setIsValid true) st)).
Proof.
  intros Hv He. unfold updateItem, validate. rewrite Hv, He. reflexivity.
Qed.

Lemma updateItem_no_target now st :
  Form.editId (form st) = None ->
  updateItem now st = withForm (Form.setIsValid (valid (form st))) st.
Proof.
  intros He. unfold updateItem, validate. rewrite He.
  destruct (valid (form st)); reflexivity.
Qed.

Lemma updateItem_invalid now st :
  valid (form st) = false ->
  updateItem now st = withForm (Form.setIsValid false) st.
Proof.
  intros Hv. unfold updateItem, validate. rewrite Hv. reflexivity.
Qed.

(** ** The collection after a handler *)

Lemma items_addItem now st :
  items (addItem now st) =
    if valid (form st)
    then items st ++ [newItem (length (items st)) (form st) now]
    else items st.
Proof.
  unfold addItem, validate. destruct (valid (form st)); reflexivity.
Qed.

Lemma items_updateItem now st :
  items (updateItem now st) =
    map (fun item =>
           if valid (form st) && targeted (Form.editId (form st)) item
           then rewriteItem (form st) now item else item)
        (items st).
Proof.
  unfold updateItem, validate.
  destruct (valid (form st)); simpl.
  - destruct (Form.editId (form st)); simpl; [reflexivity|].
    symmetry. apply map_id.
  - symmetry. apply map_id.
Qed.

Lemma items_deleteItem id st :
  items (deleteItem id st) =
    List.filter (fun item => negb (Item.id item =? id)%Z) (items st).
Proof. reflexivity. Qed.

Lemma items_clearForm st : items (clearForm st) = items st.
Proof. reflexivity. Qed.

Lemma items_startEdit item st : items (startEdit item st) = items st.
Proof. reflexivity. Qed.

Lemma filter_all_true {A} (p : A -> bool) (l : list A) :
  Forall (fun x => p x = true) l -> List.filter p l = l.
Proof.
  induction 1 as [|x l Hx _ IH]; simpl; [reflexivity|].
  rewrite Hx, IH. reflexivity.
Qed.

Lemma filter_twice {A} (p : A -> bool) (l : list A) :
  List.filter p (List.filter p l) = List.filter p l.
Proof.
  apply filter_all_true, Forall_forall.
  intros x Hx. apply list_elem_of_In, filter_In in Hx. tauto.
Qed.

(** C6.  Deleting the same id a second time changes nothing more, and
    deleting an id that no item of the collection carries leaves the whole
    state, the collection with it, as it was. *)
Theorem delete_is_idempotent (id : Z) (st : AppState) :
  deleteItem id (deleteItem id st) = deleteItem id st /\
  (Forall (fun item => Item.id item <> id) (items st) -> deleteItem id st = st).
Proof.
  split.
  - unfold deleteItem, setItems; simpl. rewrite filter_twice. reflexivity.
  - intros Habs. unfold deleteItem, setItems.
    rewrite filter_all_true; [destruct st; reflexivity|].
    eapply Forall_impl; [exact Habs|].
    intros item Hne; simpl in *. apply negb_true_iff, Z.eqb_neq, Hne.
Qed.

Section Properties.
Context `{JsRuntime}.

(** ** Runs of the page *)

(** A change on a filter control: by cases on the mode that shows it. *)
Ltac by_mode st :=
  try match goal with
      | |- context [match activeFilter st with _ => _ end] =>
          destruct (activeFilter st); simpl
      end.

Lemma run_cons st e es : run (step st e) es = run st (e :: es).
Proof. reflexivity. Qed.

Lemma run_app st es1 es2 : run st (es1 ++ es2) = run (run st es1) es2.
Proof. apply foldl_app. Qed.

(** What a step that is not a deletion can do to the collection: nothing,
    append the new item, or rewrite items in place. *)
Lemma step_items st e :
  isExcluir e = false ->
  items (step st e) = items st \/
  (exists now, valid (form st) = true /\
     items (step st e) = items st ++ [newItem (length (items st)) (form st) now]) \/
  (exists now, items (step st e) = items (updateItem now st)).
Proof.
  intros He. destruct e; simpl in *; try discriminate; by_mode st; auto.
  - rewrite items_addItem. destruct (valid (form st)) eqn:Hv; eauto.
  - destruct (currentItems st !! i); auto.
  - destruct (showModal st); eauto.
  - destruct (showModal st); auto.
Qed.

(** While the modal is shown an edit target is set, so on the page the
    update button never meets the guard on a missing target. *)
Lemma modal_has_target_step st e :
  (showModal st = true -> is_Some (Form.editId (form st))) ->
  showModal (step st e) = true -> is_Some (Form.editId (form (step st e))).
Proof.
  intros Inv. destruct e; simpl; by_mode st; auto.
  - unfold addItem, validate. destruct (valid (form st)); simpl; auto.
    discriminate.
  - destruct (currentItems st !! i); simpl; eauto.
  - destruct (currentItems st !! i); simpl; eauto.
  - destruct (showModal st) eqn:Hm; [|rewrite Hm; discriminate].
    unfold updateItem, validate.
    destruct (valid (form st)); simpl; auto.
    destruct (Form.editId (form st)) eqn:He; simpl; [discriminate|].
    intros _. rewrite He. exact (Inv eq_refl).
  - destruct (showModal st) eqn:Hm; simpl; [discriminate|].
    rewrite Hm. discriminate.
Qed.

Lemma modal_has_target es stored :
  let st := run (initialState stored) es in
  showModal st = true -> is_Some (Form.editId (form st)).
Proof.
  simpl. induction es as [|e es IH] using rev_ind; [discriminate|].
  rewrite run_app. simpl. apply modal_has_target_step, IH.
Qed.

(** C1.  [addItem] goes through exactly when name and description both have
    length at least 3 (raw length, nothing trimmed).  So does [updateItem]
    wherever the page offers it: in every state reached from a first render
    in which the modal, which holds the update button, is shown.  When
    either field is shorter than 3, add and update leave the collection and
    the form fields as they were and set [isValid] to false. *)
Theorem validation_decides_add_and_update
    (st0 : AppState) (stored : list Item.t) (es : list Event) (now : string) :
  (added now st0 (addItem now st0) <-> longEnough (form st0)) /\
  (~ longEnough (form st0) ->
     refused st0 (addItem now st0) /\ refused st0 (updateItem now st0)) /\
  let st := run (initialState stored) es in
  (showModal st = true ->
     step st (ClickAtualizar now) = updateItem now st /\
     (updated now st (updateItem now st) <-> longEnough (form st))).
Proof.
  split; [|split].
  - split.
    + intros (Hi & _ & _). apply valid_longEnough.
      destruct (valid (form st0)) eqn:Hv; [reflexivity|].
      rewrite (addItem_invalid _ _ Hv) in Hi. simpl in Hi.
      apply (f_equal length) in Hi. rewrite length_app in Hi. simpl in Hi. lia.
    + intros Hl. apply valid_longEnough in Hl.
      rewrite (addItem_valid _ _ Hl). repeat split.
  - intros Hn. apply valid_false_iff in Hn. unfold refused.
    by rewrite (addItem_invalid _ _ Hn), (updateItem_invalid _ _ Hn).
  - intros st Hm. split; [simpl; by rewrite Hm|]. split.
    + intros (_ & Hf & _). apply valid_longEnough.
      destruct (valid (form st)) eqn:Hv; [reflexivity|].
      rewrite (updateItem_invalid _ _ Hv) in Hf. simpl in Hf.
      unfold Form.setIsValid in Hf. congruence.
    + intros Hl. apply valid_longEnough in Hl.
      destruct (modal_has_target es stored Hm) as [e He].
      rewrite (updateItem_valid _ _ e Hl He).
      split; [exists e; split; [exact He | reflexivity]|]. split; reflexivity.
Qed.

(** ** Identifiers *)

Lemma sequentialIds_app l item :
  sequentialIds l -> Item.id item = (Z.of_nat (length l) + 1)%Z ->
  sequentialIds (l ++ [item]).
Proof.
  intros Hl Hi k x Hk.
  apply lookup_app_Some in Hk as [Hk|[Hlen Hk]]; [by apply Hl|].
  apply list_lookup_singleton_Some in Hk as [Hk ->].
  rewrite Hi. f_equal. lia.
Qed.

Lemma sequentialIds_update now st :
  sequentialIds (items st) -> sequentialIds (items (updateItem now st)).
Proof.
  intros Hl k x. rewrite items_updateItem.
  rewrite list_lookup_fmap. destruct (items st !! k) as [item|] eqn:Hk; [|discriminate].
  simpl. intros [= <-]. rewrite <- (Hl _ _ Hk).
  destruct (_ && _); reflexivity.
Qed.

Lemma step_sequentialIds st e :
  isExcluir e = false ->
  sequentialIds (items st) -> sequentialIds (items (step st e)).
Proof.
  intros He Hst.
  destruct (step_items st e He) as [E|[(now & Hv & E)|(now & E)]]; rewrite E.
  - exact Hst.
  - by apply sequentialIds_app.
  - by apply sequentialIds_update.
Qed.

Lemma step_length st e :
  isExcluir e = false ->
  length (items (step st e)) =
    length (items st) +
    match e with
    | ClickAdicionar _ => if valid (form st) then 1 else 0
    | _ => 0
    end.
Proof.
  intros He. destruct e; simpl in *; try discriminate; by_mode st; try lia.
  - rewrite items_addItem. destruct (valid (form st)); [|lia].
    rewrite length_app. simpl. lia.
  - destruct (currentItems st !! i); simpl; lia.
  - destruct (showModal st); [|lia].
    rewrite items_updateItem, length_map. lia.
  - destruct (showModal st); simpl; lia.
Qed.

Lemma run_without_deletion st es :
  forallb (fun e => negb (isExcluir e)) es = true ->
  sequentialIds (items st) ->
  sequentialIds (items (run st es)) /\
  length (items (run st es)) = length (items st) + successfulAdds st es.
Proof.
  revert st. induction es as [|e es IH]; intros st Hes Hst; simpl.
  - split; [exact Hst | lia].
  - simpl in Hes. apply andb_true_iff in Hes as [He Hes].
    apply negb_true_iff in He.
    destruct (IH (step st e) Hes (step_sequentialIds st e He Hst)) as [IH1 IH2].
    split; [exact IH1|]. rewrite IH2, (step_length st e He). lia.
Qed.

(** C2.  Along any run that starts from the empty collection and deletes
    nothing, the collection holds as many items as there were successful
    adds and the item at position [k] (counting from 0) has id [k + 1]; a
    successful add appends one item at the end, whose id is the size of the
    collection plus one and whose modification date is absent. *)
Theorem ids_count_the_adds (es : list Event) :
  forallb (fun e => negb (isExcluir e)) es = true ->
  let st := run (initialState []) es in
  length (items st) = successfulAdds (initialState []) es /\
  (forall k item, items st !! k = Some item -> Item.id item = (Z.of_nat k + 1)%Z) /\
  (forall now, longEnough (form st) ->
     items (addItem now st) =
       items st ++ [Item.mk (Z.of_nat (length (items st)) + 1)
                            (Form.nome (form st)) (Form.descricao (form st))
                            now None (Form.prioridade (form st))]).
Proof.
  intros Hes st.
  destruct (run_without_deletion (initialState []) es Hes) as [Hs Hlen].
  { intros k item Hk. discriminate. }
  split; [exact Hlen|]. split; [exact Hs|].
  intros now Hl. apply valid_longEnough in Hl.
  rewrite items_addItem, Hl. reflexivity.
Qed.

(** ** Update *)

Lemma time_le_trans a b c : time_le a b -> time_le b c -> time_le a c.
Proof.
  unfold time_le.
  destruct (Date_getTime a), (Date_getTime b), (Date_getTime c); try tauto.
  lia.
Qed.

Lemma time_le_refl_r a b : time_le a b -> time_le b b.
Proof.
  unfold time_le.
  destruct (Date_getTime a), (Date_getTime b); try tauto. lia.
Qed.

Lemma datedBefore_later last r item :
  notEarlier last r -> datedBefore last item -> datedBefore (Some r) item.
Proof.
  intros Hr [Hm (l & -> & Hl)]. split; [exact Hm|].
  exists r. split; [reflexivity|]. eapply time_le_trans; eassumption.
Qed.

Lemma notEarlier_readable last r : notEarlier last r -> time_le r r.
Proof. destruct last; [apply time_le_refl_r | auto]. Qed.

Lemma datedBefore_add last now st :
  notEarlier last now ->
  Forall (datedBefore last) (items st) ->
  Forall (datedBefore (Some now)) (items (addItem now st)).
Proof.
  intros Hr Hst.
  assert (Forall (datedBefore (Some now)) (items st)) as Hst'.
  { eapply Forall_impl; [exact Hst|]. intros x. by apply datedBefore_later. }
  rewrite items_addItem. destruct (valid (form st)); [|exact Hst'].
  apply Forall_app. split; [exact Hst'|].
  apply Forall_singleton. split; [exact I|].
  exists now. split; [reflexivity|]. simpl. by eapply notEarlier_readable.
Qed.

Lemma datedBefore_update last now st :
  notEarlier last now ->
  Forall (datedBefore last) (items st) ->
  Forall (datedBefore (Some now)) (items (updateItem now st)).
Proof.
  intros Hr Hst.
  rewrite items_updateItem. apply Forall_fmap.
  eapply Forall_impl; [exact Hst|]. intros x Hx. simpl.
  apply (datedBefore_later _ _ _ Hr) in Hx.
  destruct (_ && _); [|exact Hx].
  destruct Hx as [_ (r & [= <-] & Hc)].
  split; [exact Hc|]. exists now. split; [reflexivity | exact Hc].
Qed.

Lemma datedBefore_delete last id st :
  Forall (datedBefore last) (items st) ->
  Forall (datedBefore last) (items (deleteItem id st)).
Proof.
  intros Hst. rewrite items_deleteItem. apply Forall_forall.
  intros x Hx. apply list_elem_of_In, filter_In in Hx as [Hx _].
  rewrite Forall_forall in Hst. apply Hst. by apply list_elem_of_In.
Qed.

Lemma datedBefore_run es : forall last st,
  clockMonotone last es ->
  Forall (datedBefore last) (items st) ->
  Forall modifiedAfterCreated (items (run st es)).
Proof.
  induction es as [|e es IH]; intros last st Hmono Hst.
  - simpl. eapply Forall_impl; [exact Hst|]. by intros x [Hx _].
  - rewrite <- run_cons. simpl in Hmono.
    destruct e; simpl in Hmono; try (by apply (IH last));
      try (by apply (IH last); [|simpl; by_mode st]).
    + destruct Hmono as [Hr Hmono]. apply (IH (Some now)); [exact Hmono|].
      by apply (datedBefore_add last).
    + apply (IH last); [exact Hmono|]. simpl. by destruct (currentItems st !! i).
    + apply (IH last); [exact Hmono|]. simpl.
      destruct (currentItems st !! i); [by apply datedBefore_delete | exact Hst].
    + destruct Hmono as [Hr Hmono]. apply (IH (Some now)); [exact Hmono|].
      simpl. destruct (showModal st); [by apply (datedBefore_update last)|].
      eapply Forall_impl; [exact Hst|]. intros x. by apply datedBefore_later.
    + apply (IH last); [exact Hmono|]. simpl. by destruct (showModal st).
Qed.

Lemma updateItem_lookup now st i item :
  items st !! i = Some item ->
  items (updateItem now st) !! i =
    Some (if valid (form st) && targeted (Form.editId (form st)) item
          then rewriteItem (form st) now item else item).
Proof.
  intros Hi. rewrite items_updateItem, list_lookup_fmap, Hi. reflexivity.
Qed.

(** C3, as amended.  [updateItem] keeps the length and the order of the
    collection.  With a valid form it gives every item whose id equals the
    edit target the name, description and priority of the form and the
    clock reading of the update as modification date, and leaves the id and
    the creation date of those items, and every item with another id,
    unchanged.  With no edit target, or one that no item carries, the
    collection is unchanged.  As long as the clock is not set back, no
    modification date is earlier than the creation date of its item: that
    holds after every run whose clock readings never decrease, from any
    stored collection whose items were created no later than the reading
    before the run and modified no earlier than created. *)
Theorem update_rewrites_the_targets (now : string) (st : AppState) :
  let f := form st in
  let l' := items (updateItem now st) in
  length l' = length (items st) /\
  (forall i item, items st !! i = Some item ->
     exists item', l' !! i = Some item' /\
       Item.id item' = Item.id item /\
       Item.data_criacao item' = Item.data_criacao item /\
       if valid f && targeted (Form.editId f) item
       then Item.nome item' = Form.nome f /\
            Item.descricao item' = Form.descricao f /\
            Item.prioridade item' = Form.prioridade f /\
            Item.data_modificacao item' = Some now
       else item' = item) /\
  (Forall (fun item => targeted (Form.editId f) item = false) (items st) ->
     l' = items st) /\
  (forall stored last es,
     Forall (datedBefore last) stored ->
     clockMonotone last es ->
     Forall modifiedAfterCreated (items (run (initialState stored) es))).
Proof.
  intros f l'. subst f l'. split; [|split; [|split]].
  - rewrite items_updateItem. apply length_map.
  - intros i item Hi. rewrite (updateItem_lookup _ _ _ _ Hi).
    eexists. split; [reflexivity|].
    destruct (_ && _); simpl; repeat split.
  - intros Hno. rewrite items_updateItem.
    rewrite <- (map_id (items st)) at 2. apply map_ext_in.
    intros item Hin. rewrite Forall_forall in Hno.
    rewrite (Hno item), andb_false_r; [reflexivity|]. by apply list_elem_of_In.
  - intros stored last es Hs Hes. by apply (datedBefore_run es last).
Qed.

(** ** Items that share an id *)

(** C9.  [deleteItem] removes every item that carries the id and keeps the
    others in order; [updateItem] with a valid form rewrites name,
    description, priority and modification date of every item that carries
    the edit target.  Several items with one id do occur: after two adds,
    the deletion of the first item and one more add, both items have
    id 2. *)
Theorem same_id_items_go_together (id : Z) (now : string) (st : AppState) :
  Forall (fun item => Item.id item <> id) (items (deleteItem id st)) /\
  (forall item, item ∈ items (deleteItem id st) <->
                item ∈ items st /\ Item.id item <> id) /\
  (valid (form st) = true -> Form.editId (form st) = Some id ->
   forall i item, items st !! i = Some item -> Item.id item = id ->
     items (updateItem now st) !! i =
       Some (Item.mk id (Form.nome (form st)) (Form.descricao (form st))
                     (Item.data_criacao item) (Some now)
                     (Form.prioridade (form st)))) /\
  Item.id <$> items (run (initialState []) collision) = [2%Z; 2%Z].
Proof.
  split; [|split; [|split]].
  - apply Forall_forall. intros item Hin.
    apply list_elem_of_In, filter_In in Hin as [_ Hin].
    by apply negb_true_iff, Z.eqb_neq in Hin.
  - intros item. rewrite !list_elem_of_In, items_deleteItem, filter_In.
    rewrite negb_true_iff, Z.eqb_neq. reflexivity.
  - intros Hv He i item Hi Hid.
    rewrite (updateItem_lookup _ _ _ _ Hi), Hv, He. simpl.
    rewrite <- Hid, Z.eqb_refl. reflexivity.
  - reflexivity.
Qed.

(** ** The validity flag *)

(** C10.  [clearForm] empties name and description, puts the priority back
    to [baixa] and drops the edit target, and keeps [isValid].  A click on
    the add button, or on the update button of the modal, leaves in
    [isValid] the verdict of [validate]; no other event changes the flag, so
    a failed validation stays on display across a cancel. *)
Theorem only_validate_writes_isValid (st : AppState) (e : Event) :
  form (clearForm st) = Form.mk "" "" baixa None (Form.isValid (form st)) /\
  Form.isValid (form (step st e)) =
    match e with
    | ClickAdicionar _ => valid (form st)
    | ClickAtualizar _ => if showModal st then valid (form st)
                          else Form.isValid (form st)
    | _ => Form.isValid (form st)
    end /\
  (Form.isValid (form st) = false ->
   Form.isValid (form (step st ClickCancelar)) = false).
Proof.
  split; [reflexivity|]. split.
  - destruct e; simpl; by_mode st; try reflexivity.
    + unfold addItem, validate. destruct (valid (form st)); reflexivity.
    + destruct (currentItems st !! i); reflexivity.
    + destruct (currentItems st !! i); reflexivity.
    + destruct (showModal st); [|reflexivity].
      unfold updateItem, validate.
      destruct (valid (form st)); simpl; [|reflexivity].
      destruct (Form.editId (form st)); reflexivity.
    + destruct (showModal st); reflexivity.
  - intros Hf. simpl. destruct (showModal st); exact Hf.
Qed.

(** ** Sorting *)

Lemma sort_insert_Permutation {A} (cmp : A -> A -> option Z) x l :
  sort_insert cmp x l ≡ₚ x :: l.
Proof.
  induction l as [|y l IH]; simpl; [reflexivity|].
  destruct (_ <=? _)%Z; [reflexivity|].
  rewrite IH. apply Permutation_swap.
Qed.

Lemma Array_sort_Permutation {A} (cmp : A -> A -> option Z) l :
  Array_sort cmp l ≡ₚ l.
Proof.
  induction l as [|x l IH]; simpl; [reflexivity|].
  rewrite sort_insert_Permutation, IH. reflexivity.
Qed.

Lemma Array_sort_length {A} (cmp : A -> A -> option Z) l :
  length (Array_sort cmp l) = length l.
Proof. apply Permutation_length, Array_sort_Permutation. Qed.

(** Elements that compare as equal, or in order, are never moved past each
    other; [p] selects a class of such elements. *)
Lemma sort_insert_filter {A} (cmp : A -> A -> option Z) (p : A -> bool) x l :
  (forall y, p x = true -> p y = true -> (SortCompare cmp x y <= 0)%Z) ->
  List.filter p (sort_insert cmp x l) = List.filter p (x :: l).
Proof.
  intros Hp. induction l as [|y l IH]; [reflexivity|].
  simpl. destruct (SortCompare cmp x y <=? 0)%Z eqn:Hc; [reflexivity|].
  apply Z.leb_gt in Hc. simpl. rewrite IH. simpl.
  destruct (p x) eqn:Hx, (p y) eqn:Hy; try reflexivity.
  specialize (Hp y eq_refl Hy). lia.
Qed.

Lemma Array_sort_filter {A} (cmp : A -> A -> option Z) (p : A -> bool) l :
  (forall x y, p x = true -> p y = true -> (SortCompare cmp x y <= 0)%Z) ->
  List.filter p (Array_sort cmp l) = List.filter p l.
Proof.
  intros Hp. induction l as [|x l IH]; [reflexivity|].
  simpl. rewrite sort_insert_filter by (intros y; apply Hp).
  simpl. rewrite IH. reflexivity.
Qed.


(** ** Slices *)

Lemma Array_slice_segment {A} (start final : Z) (l : list A) :
  exists before after, l = before ++ Array_slice start final l ++ after.
Proof.
  unfold Array_slice. cbv zeta.
  generalize (Z.to_nat (relativeIndex (Z.of_nat (length l)) final -
                        relativeIndex (Z.of_nat (length l)) start)).
  generalize (Z.to_nat (relativeIndex (Z.of_nat (length l)) start)).
  intros k n. exists (take k l), (drop n (drop k l)).
  rewrite (take_drop n), (take_drop k). reflexivity.
Qed.

Lemma Array_slice_nil {A} (start final : Z) : Array_slice start final (@nil A) = [].
Proof. unfold Array_slice. rewrite drop_nil, take_nil. reflexivity. Qed.

(** ** The filter *)

Lemma filter_filter_and {A} (p q : A -> bool) l :
  List.filter p (List.filter q l) = List.filter (fun x => p x && q x) l.
Proof.
  induction l as [|x l IH]; [reflexivity|].
  simpl. destruct (q x); simpl; rewrite ?andb_true_r, ?andb_false_r;
    [destruct (p x)|]; rewrite IH; reflexivity.
Qed.

Lemma filteredItems_Permutation st :
  filteredItems st ≡ₚ List.filter (keep st) (items st).
Proof.
  unfold filteredItems.
  destruct (activeFilter st); [reflexivity | |]; apply Array_sort_Permutation.
Qed.

Lemma filteredItems_length st :
  length (filteredItems st) = length (List.filter (keep st) (items st)).
Proof. apply Permutation_length, filteredItems_Permutation. Qed.

Lemma append_String a t post :
  (String a t ++ post)%string = String a (t ++ post)%string.
Proof. reflexivity. Qed.

Lemma append_Empty post : ("" ++ post)%string = post.
Proof. reflexivity. Qed.

Lemma prefix_app t : forall s,
  String.prefix t s = true <-> exists post, s = (t ++ post)%string.
Proof.
  induction t as [|a t IH]; intros s; simpl.
  - destruct s; split; eauto.
  - destruct s as [|b s]; simpl; [split; [discriminate | intros [? [=]]]|].
    destruct (Ascii.ascii_dec a b) as [<-|Hne].
    + rewrite IH.
      split; intros [post E]; exists post; rewrite append_String in *; congruence.
    + split; [discriminate|].
      intros [post E]. rewrite append_String in E. congruence.
Qed.

Lemma includes_unfold s t :
  includes s t =
    if String.prefix t s then true
    else match s with
         | EmptyString => false
         | String _ s' => includes s' t
         end.
Proof. destruct s; reflexivity. Qed.

Lemma includes_occurs t : forall s,
  includes s t = true <-> exists pre post, s = (pre ++ t ++ post)%string.
Proof.
  induction s as [|c s IH]; rewrite includes_unfold.
  - destruct (String.prefix t "") eqn:Hp.
    + apply prefix_app in Hp as [post E]. split; [|reflexivity].
      intros _. exists "", post. exact E.
    + split; [discriminate|]. intros (pre & post & E).
      destruct pre; [|rewrite append_String in E; discriminate].
      rewrite append_Empty in E.
      assert (String.prefix t "" = true) by (apply prefix_app; eauto).
      congruence.
  - destruct (String.prefix t (String c s)) eqn:Hp.
    + apply prefix_app in Hp as [post E]. split; [|reflexivity].
      intros _. exists "", post. exact E.
    + rewrite IH. split.
      * intros (pre & post & ->). exists (String c pre), post. reflexivity.
      * intros (pre & post & E). destruct pre as [|c' pre].
        -- rewrite append_Empty in E.
           assert (String.prefix t (String c s) = true)
             by (apply prefix_app; eauto).
           congruence.
        -- rewrite append_String in E. injection E as _ E. eauto.
Qed.

(** ** Pages *)

Lemma Math_ceil_div_bounds a b :
  (0 < b)%Z ->
  (b * (Math_ceil_div a b - 1) < a <= b * Math_ceil_div a b)%Z.
Proof.
  intros Hb. unfold Math_ceil_div.
  destruct (a mod b =? 0)%Z eqn:Hm;
    [apply Z.eqb_eq in Hm | apply Z.eqb_neq in Hm];
    pose proof (Z.div_mod a b ltac:(lia));
    pose proof (Z.mod_pos_bound a b Hb); nia.
Qed.

(** C4, on the code.  [totalPages] is the number of items that pass the
    filter divided by 10 and rounded up: the least [p] with [10 * p] at
    least that number.  When no item passes the filter this is 0, not 1:
    the slice shown is empty, and the next-page button, which bounds the
    page by [totalPages], moves page 1 to page 0, while the previous-page
    button never goes below 1. *)
Theorem totalPages_rounds_up (st : AppState) :
  (10 * (totalPages st - 1) < Z.of_nat (length (filteredItems st))
     <= 10 * totalPages st)%Z /\
  (filteredItems st = [] ->
     totalPages st = 0%Z /\
     currentItems st = [] /\
     currentPage (step st ClickProxima) = Z.min (currentPage st + 1) 0 /\
     currentPage (step st ClickAnterior) = Z.max (currentPage st - 1) 1).
Proof.
  split.
  - unfold totalPages, itemsPerPage. by apply Math_ceil_div_bounds.
  - intros E.
    assert (totalPages st = 0%Z) as Ht by (unfold totalPages; rewrite E; reflexivity).
    split; [exact Ht|]. split.
    + unfold currentItems. rewrite E. apply Array_slice_nil.
    + simpl. rewrite Ht. split; reflexivity.
Qed.

(** ** Which predicates filter *)

Lemma priorityPredicate_true fp item :
  priorityPredicate fp item = true <->
  match fp with Some p => Item.prioridade item = p | None => True end.
Proof.
  destruct fp as [p|]; simpl; [|tauto].
  destruct (Item.prioridade item), p; simpl; split; congruence.
Qed.

Lemma namePredicate_true search item :
  namePredicate search item = true <->
  search = "" \/
  exists pre post,
    toLowerCase (Item.nome item) = (pre ++ toLowerCase search ++ post)%string.
Proof.
  unfold namePredicate. destruct search as [|c s]; simpl truthy; cbv iota.
  - split; auto.
  - rewrite includes_occurs. split; [auto|]. intros [[=]|Hx]. exact Hx.
Qed.

(** C5, as amended.  Whatever the active mode, the items of the view are
    those of the collection that pass both tests: the priority is the
    selected one, when one is selected, and the lower-cased name contains
    the lower-cased search text, when that text is not empty.  The active
    mode chooses the order only (the collection order under [priority]).
    A test has no effect only when its own setting is empty. *)
Theorem both_filters_apply_in_every_mode (st : AppState) (m : ActiveFilter) :
  filteredItems (setActiveFilter m st) ≡ₚ List.filter (keep st) (items st) /\
  filteredItems (setActiveFilter priority st) = List.filter (keep st) (items st) /\
  (forall item, item ∈ filteredItems (setActiveFilter m st) <->
     item ∈ items st /\
     match filterPriority st with
     | Some p => Item.prioridade item = p
     | None => True
     end /\
     (searchName st = "" \/
      exists pre post,
        toLowerCase (Item.nome item) =
          (pre ++ toLowerCase (searchName st) ++ post)%string)) /\
  (searchName st = "" ->
     List.filter (keep st) (items st) =
       List.filter (priorityPredicate (filterPriority st)) (items st)) /\
  (filterPriority st = None ->
     List.filter (keep st) (items st) =
       List.filter (namePredicate (searchName st)) (items st)).
Proof.
  assert (filteredItems (setActiveFilter m st) ≡ₚ List.filter (keep st) (items st))
    as Hperm by apply (filteredItems_Permutation (setActiveFilter m st)).
  split; [exact Hperm|]. split; [reflexivity|]. split; [|split].
  - intros item. rewrite Hperm, list_elem_of_In, filter_In, <- list_elem_of_In.
    unfold keep. rewrite andb_true_iff, priorityPredicate_true, namePredicate_true.
    reflexivity.
  - intros E. apply filter_ext. intros item. unfold keep, namePredicate.
    rewrite E. simpl. apply andb_true_r.
  - intros E. apply filter_ext. intros item. unfold keep. rewrite E. reflexivity.
Qed.

(** ** Stability of the date sort *)

Lemma dates_stay_parsable (stored : list Item.t) (es : list Event) :
  Forall parsable stored -> Forall readable es ->
  Forall parsable (items (run (initialState stored) es)).
Proof.
  intros Hs Hes. induction es as [|e es IH] using rev_ind; [exact Hs|].
  apply Forall_app in Hes as [Hes He]. apply Forall_inv in He.
  specialize (IH Hes). rewrite run_app. simpl.
  set (st := run (initialState stored) es) in *.
  destruct e; simpl; by_mode st; auto.
  - rewrite items_addItem. destruct (valid (form st)); [|exact IH].
    apply Forall_app. split; [exact IH|]. apply Forall_singleton. exact He.
  - destruct (currentItems st !! i); exact IH.
  - destruct (currentItems st !! i); [|exact IH].
    rewrite items_deleteItem. apply Forall_forall. intros x Hx.
    apply list_elem_of_In, filter_In in Hx as [Hx _].
    rewrite Forall_forall in IH. apply IH. by apply list_elem_of_In.
  - destruct (showModal st); [|exact IH].
    rewrite items_updateItem. apply Forall_fmap.
    eapply Forall_impl; [exact IH|]. intros x Hx. simpl.
    by destruct (_ && _).
  - destruct (showModal st); exact IH.
Qed.


(** ** The render and the store *)

Lemma contents_insert_eq h r l : contents (<[r := l]> h) r = l.
Proof. unfold contents. by rewrite lookup_insert_eq. Qed.

Lemma contents_insert_ne h r r' l :
  r <> r' -> contents (<[r := l]> h) r' = contents h r'.
Proof. intros Hne. unfold contents. by rewrite lookup_insert_ne. Qed.

Lemma fresh_not_allocated (h : gmap loc (list Item.t)) r l :
  h !! r = Some l -> fresh (dom h) <> r.
Proof.
  intros Hr E. apply (is_fresh (dom h)). rewrite E.
  apply elem_of_dom. by eexists.
Qed.

(** Each array operation, by what it returns and what it leaves in the
    store. *)
Lemma Ref_filter_run p r h :
  Ref_filter p r h =
    (fresh (dom h), <[fresh (dom h) := List.filter p (contents h r)]> h).
Proof. reflexivity. Qed.

Lemma Ref_sort_run cmp r h :
  Ref_sort cmp r h = (r, <[r := Array_sort cmp (contents h r)]> h).
Proof. reflexivity. Qed.

Lemma Ref_slice_run a b r h :
  Ref_slice a b r h =
    (fresh (dom h), <[fresh (dom h) := Array_slice a b (contents h r)]> h).
Proof. reflexivity. Qed.

Lemma render_run st h r :
  h !! r = Some (items st) ->
  render r st h =
    (mkRendered (fresh (dom h)) (totalPages st) (fresh (dom (afterSort st h))),
     <[fresh (dom (afterSort st h)) := currentItems st]> (afterSort st h)).
Proof.
  intros Hr.
  assert (contents h r = items st) as Hc by (unfold contents; by rewrite Hr).
  unfold render, afterSort, totalPages, currentItems, filteredItems.
  unfold mbind, M_bind, mret, M_ret.
  rewrite Ref_filter_run, Hc.
  destruct (activeFilter st); rewrite ?Ref_sort_run; unfold Ref_length;
    rewrite ?contents_insert_eq, ?insert_insert_eq, Ref_slice_run,
      ?contents_insert_eq; reflexivity.
Qed.

(** C8.  A render leaves every array that existed before it as it was, the
    array of the [items] cell in particular, elements and order: the filter
    builds a new array, the sort works in place on that new array, and the
    slice builds another one.  What the render hands out is
    [filteredItems], [totalPages] and [currentItems]. *)
Theorem render_keeps_the_collection
    (st : AppState) (h : gmap loc (list Item.t)) (r : loc) :
  h !! r = Some (items st) ->
  let out := (render r st h).1 in
  let h' := (render r st h).2 in
  h' !! r = Some (items st) /\
  (forall r0 l, h !! r0 = Some l -> h' !! r0 = Some l) /\
  contents h' (r_filteredItems out) = filteredItems st /\
  r_totalPages out = totalPages st /\
  contents h' (r_currentItems out) = currentItems st.
Proof.
  intros Hr. rewrite (render_run st h r Hr). simpl.
  assert (forall r0 l, h !! r0 = Some l ->
            afterSort st h !! r0 = Some l) as Hframe1.
  { intros r0 l H0. unfold afterSort.
    rewrite lookup_insert_ne; [exact H0 | by eapply fresh_not_allocated]. }
  assert (forall r0 l, h !! r0 = Some l ->
            <[fresh (dom (afterSort st h)) := currentItems st]> (afterSort st h)
              !! r0 = Some l) as Hframe.
  { intros r0 l H0.
    rewrite lookup_insert_ne; [by apply Hframe1|].
    eapply fresh_not_allocated. by apply Hframe1. }
  split; [by apply Hframe|]. split; [exact Hframe|]. split; [|split].
  - rewrite contents_insert_ne.
    + apply contents_insert_eq.
    + eapply fresh_not_allocated. apply lookup_insert_eq.
  - reflexivity.
  - apply contents_insert_eq.
Qed.

End Properties.

(** * The statements at concrete inputs *)

Example twoAdds_items :
  items (run (H := exampleRuntime) (initialState []) twoAdds) =
    [ Item.mk 1 "one" "first" t1 None baixa;
      Item.mk 2 "two" "second" t2 None alta ].
Proof. reflexivity. Qed.

Lemma validation_decides_add_and_update_while_editing :
  showModal editing = true /\
  longEnough (form editing) /\
  step (H := exampleRuntime) editing (ClickAtualizar t3) = updateItem t3 editing /\
  updated t3 editing (updateItem t3 editing).
Proof.
  assert (longEnough (form editing)) as Hl by (split; simpl; lia).
  split; [reflexivity|]. split; [exact Hl|].
  pose proof (proj2 (proj2
                (validation_decides_add_and_update (H := exampleRuntime)
                   editing [] (collision ++ [ClickEditar 0; ChangeNome "edited"]) t3))
                eq_refl) as [Hs Hu].
  split; [exact Hs | exact (proj2 Hu Hl)].
Defined.

(** A name of two letters in the edit form: the update is refused. *)
Example short_name_in_the_edit_form :
  let st := step (H := exampleRuntime) editing (ChangeNome "Hi") in
  showModal st = true /\
  step (H := exampleRuntime) st (ClickAtualizar t3) = withForm (Form.setIsValid false) st /\
  step (H := exampleRuntime) st (ClickAdicionar t3) = withForm (Form.setIsValid false) st.
Proof. split; [reflexivity|]. split; vm_compute; reflexivity. Qed.

Lemma ids_count_the_adds_twoAdds :
  forallb (fun e => negb (isExcluir e)) twoAdds = true /\
  let st := run (H := exampleRuntime) (initialState []) twoAdds in
  length (items st) = successfulAdds (H := exampleRuntime) (initialState []) twoAdds /\
  (forall k item, items st !! k = Some item -> Item.id item = (Z.of_nat k + 1)%Z) /\
  (forall now, longEnough (form st) ->
     items (addItem now st) =
       items st ++ [Item.mk (Z.of_nat (length (items st)) + 1)
                            (Form.nome (form st)) (Form.descricao (form st))
                            now None (Form.prioridade (form st))]).
Proof.
  split; [reflexivity|].
  apply (ids_count_the_adds (H := exampleRuntime) twoAdds). reflexivity.
Defined.

Lemma delete_is_idempotent_absent_id :
  let st := run (H := exampleRuntime) (initialState []) twoAdds in
  Forall (fun item => Item.id item <> 7%Z) (items st) /\
  deleteItem 7 st = st.
Proof.
  assert (Forall (fun item => Item.id item <> 7%Z)
            (items (run (H := exampleRuntime) (initialState []) twoAdds))) as Habs.
  { compute_done. }
  split; [exact Habs|].
  exact (proj2 (delete_is_idempotent 7 _) Habs).
Defined.

(** C3, as stated, fails twice.  When two items carry the edit target
    (after the run [collision] both have id 2), editing the first one
    rewrites the second as well.  And the modification date is whatever the
    clock reads: an item added when the clock read [t3] and saved after the
    clock was set back to [t1] is modified, by its dates, before it was
    created. *)
Lemma update_rewrites_duplicates_and_trusts_the_clock :
  let before := editing in
  let after := step (H := exampleRuntime) before (ClickAtualizar t3) in
  Form.editId (form before) = Some 2%Z /\
  Item.id <$> items before = [2%Z; 2%Z] /\
  Item.nome <$> items before = ["two"; "three"] /\
  Item.nome <$> items after = ["edited"; "edited"] /\
  Item.data_modificacao <$> items after = [Some t3; Some t3] /\
  items clockSetBack = [Item.mk 1 "one" "first" t3 (Some t1) baixa] /\
  Date_getTime (JsRuntime := exampleRuntime) t1 = Some 1000%Z /\
  Date_getTime (JsRuntime := exampleRuntime) t3 = Some 3000%Z.
Proof. repeat split. Qed.

Lemma totalPages_rounds_up_empty :
  let st := initialState [] in
  filteredItems (H := exampleRuntime) st = [] /\
  totalPages (H := exampleRuntime) st = 0%Z /\
  currentItems (H := exampleRuntime) st = [] /\
  currentPage (step (H := exampleRuntime) st ClickProxima) = 0%Z /\
  currentPage (step (H := exampleRuntime) st ClickAnterior) = 1%Z.
Proof.
  split; [reflexivity|].
  exact (proj2 (totalPages_rounds_up (H := exampleRuntime) (initialState []))
               eq_refl).
Defined.

(** C5, as stated, fails: under the priority mode with no priority
    selected, the search text left from the name mode still filters. *)
Lemma inactive_search_text_still_filters :
  let st := run (H := exampleRuntime) (initialState []) leftoverSearch in
  activeFilter st = priority /\
  filterPriority st = None /\
  searchName st = "Ban" /\
  Item.nome <$> items st = ["apple"; "banana"] /\
  Item.nome <$> List.filter (priorityPredicate (filterPriority st)) (items st) =
    ["apple"; "banana"] /\
  Item.nome <$> filteredItems (H := exampleRuntime) st = ["banana"] /\
  Item.nome <$> currentItems (H := exampleRuntime) st = ["banana"].
Proof. repeat split. Qed.

Example sameSecond_asc :
  Item.id <$> filteredItems (H := exampleRuntime) sameSecond = [2%Z; 1%Z; 3%Z].
Proof. reflexivity. Qed.

Example sameSecond_desc :
  Item.id <$> filteredItems (H := exampleRuntime) (setSortOrder desc sameSecond) =
    [1%Z; 3%Z; 2%Z].
Proof. reflexivity. Qed.


Lemma render_keeps_the_collection_sameSecond :
  let st := sameSecond in
  let h : gmap loc (list Item.t) := {[ 1%positive := items st ]} in
  h !! 1%positive = Some (items st) /\
  let out := (render (H := exampleRuntime) 1%positive st h).1 in
  let h' := (render (H := exampleRuntime) 1%positive st h).2 in
  h' !! 1%positive = Some (items st) /\
  (forall r0 l, h !! r0 = Some l -> h' !! r0 = Some l) /\
  contents h' (r_filteredItems out) = filteredItems (H := exampleRuntime) st /\
  r_totalPages out = totalPages (H := exampleRuntime) st /\
  contents h' (r_currentItems out) = currentItems (H := exampleRuntime) st.
Proof.
  split; [apply lookup_singleton_eq|].
  apply (render_keeps_the_collection (H := exampleRuntime)).
  apply lookup_singleton_eq.
Defined.

Lemma update_rewrites_the_targets_on_a_run :
  let es := twoAdds ++ [ClickEditar 0; ChangeNome "edited"; ClickAtualizar t3] in
  Forall (datedBefore (H := exampleRuntime) (Some t1)) [kept] /\
  clockMonotone (H := exampleRuntime) (Some t1) es /\
  Forall (modifiedAfterCreated (H := exampleRuntime))
         (items (run (H := exampleRuntime) (initialState [kept]) es)).
Proof.
  assert (Forall (datedBefore (H := exampleRuntime) (Some t1)) [kept]) as Hs.
  { apply Forall_singleton. split; [exact I|].
    exists t1. split; [reflexivity|]. vm_compute. discriminate. }
  assert (clockMonotone (H := exampleRuntime) (Some t1)
            (twoAdds ++ [ClickEditar 0; ChangeNome "edited"; ClickAtualizar t3]))
    as Hm.
  { vm_compute. repeat split; discriminate. }
  split; [exact Hs|]. split; [exact Hm|].
  exact (proj2 (proj2 (proj2
           (update_rewrites_the_targets (H := exampleRuntime) t1 (initialState []))))
           [kept] (Some t1) _ Hs Hm).
Defined.

Lemma same_id_items_go_together_on_edit :
  let st := editing in
  valid (form st) = true /\
  Form.editId (form st) = Some 2%Z /\
  forall i item, items st !! i = Some item -> Item.id item = 2%Z ->
    items (updateItem t3 st) !! i =
      Some (Item.mk 2 (Form.nome (form st)) (Form.descricao (form st))
                    (Item.data_criacao item) (Some t3)
                    (Form.prioridade (form st))).
Proof.
  split; [reflexivity|]. split; [reflexivity|].
  exact (proj1 (proj2 (proj2
           (same_id_items_go_together (H := exampleRuntime) 2 t3 editing)))
           eq_refl eq_refl).
Defined.

Lemma only_validate_writes_isValid_on_cancel :
  let st := failedThenEditing in
  showModal st = true /\
  Form.isValid (form st) = false /\
  Form.isValid (form (step (H := exampleRuntime) st ClickCancelar)) = false.
Proof.
  split; [reflexivity|]. split; [reflexivity|].
  exact (proj2 (proj2
           (only_validate_writes_isValid (H := exampleRuntime)
              failedThenEditing ClickCancelar))
           eq_refl).
Defined.

Lemma both_filters_apply_in_every_mode_no_search :
  let st := onlyAlta in
  searchName st = "" /\
  List.filter (keep st) (items st) =
    List.filter (priorityPredicate (filterPriority st)) (items st).
Proof.
  split; [reflexivity|].
  exact (proj1 (proj2 (proj2 (proj2
           (both_filters_apply_in_every_mode (H := exampleRuntime)
              onlyAlta priority))))
           eq_refl).
Defined.

(** * Further properties of the handlers and of the view *)

Section Further.
Context `{JsRuntime}.

(** A change on a filter control: by cases on the mode that shows it. *)
Ltac by_mode st :=
  try match goal with
      | |- context [match activeFilter st with _ => _ end] =>
          destruct (activeFilter st); simpl
      end.

(** ** Editing *)

Lemma currentItems_in_items st i item :
  currentItems st !! i = Some item -> item ∈ items st.
Proof.
  intros Hi.
  assert (item ∈ currentItems st) as Hc by (eapply list_elem_of_lookup_2; eauto).
  destruct (Array_slice_segment (indexOfFirstItem st) (indexOfLastItem st)
              (filteredItems st)) as (before & after & E).
  assert (item ∈ filteredItems st) as Hf.
  { rewrite E. fold (currentItems st). set_solver. }
  rewrite filteredItems_Permutation in Hf.
  apply list_elem_of_In, filter_In in Hf as [Hf _]. by apply list_elem_of_In.
Qed.

(** X1.  Opening the edit form on a displayed item whose name and
    description are long enough and saving it at once goes through: the
    form is reset, the modal closed, every item with another id is as it
    was, and the items that carry the id of the edited one get its name,
    description and priority and the clock reading as modification date;
    the edited item itself only gets the modification date. *)
Theorem edit_then_save_only_stamps (st : AppState) (i : nat) (item : Item.t)
    (now : string) :
  currentItems st !! i = Some item ->
  itemValid item ->
  let st' := run st [ClickEditar i; ClickAtualizar now] in
  committed st' /\
  (forall j x, items st !! j = Some x ->
     items st' !! j =
       Some (if (Item.id x =? Item.id item)%Z
             then overwritten (Item.nome item) (Item.descricao item)
                              (Item.prioridade item) now x
             else x)) /\
  (forall j, items st !! j = Some item -> items st' !! j = Some (stamped now item)).
Proof.
  intros Hi Hv st'. subst st'. unfold run. simpl. rewrite Hi. simpl.
  assert (valid (form (startEdit item st)) = true) as Hvalid
    by (by apply valid_longEnough).
  rewrite (updateItem_valid now (startEdit item st) (Item.id item) Hvalid eq_refl).
  split; [split; reflexivity|].
  assert (forall j x, items st !! j = Some x ->
            items (clearForm
              (setItems
                 (map (fun item0 =>
                         if (Item.id item0 =? Item.id item)%Z
                         then rewriteItem (form (startEdit item st)) now item0
                         else item0))
                 (withForm (Form.setIsValid true) (startEdit item st)))) !! j =
            Some (if (Item.id x =? Item.id item)%Z
                  then overwritten (Item.nome item) (Item.descricao item)
                                   (Item.prioridade item) now x
                  else x)) as Hall.
  { intros j x Hj. simpl. rewrite list_lookup_fmap, Hj. reflexivity. }
  split; [exact Hall|].
  intros j Hj. rewrite (Hall j item Hj), Z.eqb_refl. reflexivity.
Qed.

(** X2.  Opening the edit form on a displayed item, changing its fields in
    any way and cancelling leaves the state that a cancel alone would have
    left: the collection is untouched and nothing of the edit remains. *)
Theorem cancel_discards_the_edit (st : AppState) (i : nat) (item : Item.t)
    (es : list Event) :
  currentItems st !! i = Some item ->
  forallb isFormChange es = true ->
  run st (ClickEditar i :: es ++ [ClickCancelar]) = clearForm st.
Proof.
  intros Hi Hes. rewrite <- run_cons. simpl. rewrite Hi.
  rewrite run_app.
  assert (forall st0, forallb isFormChange es = true ->
            showModal (run st0 es) = showModal st0 /\
            clearForm (run st0 es) = clearForm st0) as Hform.
  { clear. induction es as [|e es IH]; intros st0 Hes; [by split|].
    simpl in Hes. apply andb_true_iff in Hes as [He Hes].
    rewrite <- run_cons.
    destruct (IH (step st0 e) Hes) as [IH1 IH2]. rewrite IH1, IH2.
    destruct e; try discriminate; by split. }
  destruct (Hform (startEdit item st) Hes) as [Hm Hc].
  simpl. rewrite Hm. simpl. exact Hc.
Qed.

(** X3.  In every state reached from a first render, the modal is shown
    exactly when an edit target is set. *)
Theorem modal_shown_iff_editing (stored : list Item.t) (es : list Event) :
  let st := run (initialState stored) es in
  showModal st = match Form.editId (form st) with Some _ => true | None => false end.
Proof.
  simpl. induction es as [|e es IH] using rev_ind; [reflexivity|].
  rewrite run_app. simpl.
  set (st := run (initialState stored) es) in *.
  destruct e; simpl; by_mode st; auto.
  - unfold addItem, validate. destruct (valid (form st)); simpl; auto.
  - destruct (currentItems st !! i); simpl; auto.
  - destruct (currentItems st !! i); simpl; auto.
  - destruct (showModal st) eqn:Hm; [|by rewrite Hm].
    unfold updateItem, validate.
    destruct (valid (form st)); simpl; [|by rewrite <- IH].
    destruct (Form.editId (form st)); simpl; [reflexivity | discriminate].
  - destruct (showModal st) eqn:Hm; simpl; [reflexivity | by rewrite <- IH, Hm].
Qed.

(** ** What the collection keeps *)

(** X4.  No handler lets a short name or description into the collection:
    if every stored item has name and description of length 3 or more, so
    has every item after any run of the page. *)
Theorem items_stay_valid (stored : list Item.t) (es : list Event) :
  Forall itemValid stored ->
  Forall itemValid (items (run (initialState stored) es)).
Proof.
  intros Hs. induction es as [|e es IH] using rev_ind; [exact Hs|].
  rewrite run_app. simpl.
  set (st := run (initialState stored) es) in *.
  destruct e; simpl; by_mode st; auto.
  - rewrite items_addItem. destruct (valid (form st)) eqn:Hv; [|exact IH].
    apply Forall_app. split; [exact IH|]. apply Forall_singleton.
    by apply valid_longEnough in Hv.
  - destruct (currentItems st !! i); exact IH.
  - destruct (currentItems st !! i); [|exact IH].
    rewrite items_deleteItem. apply Forall_forall. intros x Hx.
    apply list_elem_of_In, filter_In in Hx as [Hx _].
    rewrite Forall_forall in IH. apply IH. by apply list_elem_of_In.
  - destruct (showModal st); [|exact IH].
    rewrite items_updateItem. apply Forall_fmap.
    eapply Forall_impl; [exact IH|]. intros x Hx. simpl.
    destruct (valid (form st)) eqn:Hv; simpl; [|exact Hx].
    destruct (targeted _ x); [|exact Hx].
    by apply valid_longEnough in Hv.
  - destruct (showModal st); exact IH.
Qed.

(** ** How the handlers compose *)

Lemma filter_map_commute {A} (p : A -> bool) (f : A -> A) (l : list A) :
  (forall x, p (f x) = p x) ->
  List.filter p (map f l) = map f (List.filter p l).
Proof.
  intros Hp. induction l as [|x l IH]; [reflexivity|].
  simpl. rewrite Hp. destruct (p x); simpl; by rewrite IH.
Qed.

Lemma filter_comm {A} (p q : A -> bool) (l : list A) :
  List.filter p (List.filter q l) = List.filter q (List.filter p l).
Proof.
  rewrite !filter_filter_and. apply filter_ext. intros x. apply andb_comm.
Qed.

(** X5.  Deletions commute with each other and with saving an edit: the
    order in which two ids are deleted, or in which an id is deleted and
    the edit form is saved, makes no difference to the state. *)
Theorem delete_commutes (a b : Z) (now : string) (st : AppState) :
  deleteItem a (deleteItem b st) = deleteItem b (deleteItem a st) /\
  deleteItem a (updateItem now st) = updateItem now (deleteItem a st).
Proof.
  split.
  - unfold deleteItem, setItems. simpl. by rewrite filter_comm.
  - unfold updateItem, validate, deleteItem. simpl.
    destruct (valid (form st)); simpl; [|reflexivity].
    destruct (Form.editId (form st)) as [e|]; simpl; [|reflexivity].
    unfold clearForm, setItems, setShowModal, withForm. simpl.
    f_equal. apply filter_map_commute.
    intros x. by destruct (Item.id x =? e)%Z.
Qed.

(** X6.  When no item carries the id that the next add assigns, adding an
    item and deleting that id gives the collection back; in a collection
    numbered 1, 2, ... in order no item carries it. *)
Theorem add_then_delete_restores (now : string) (st : AppState) :
  let id := (Z.of_nat (length (items st)) + 1)%Z in
  (sequentialIds (items st) -> Forall (fun item => Item.id item <> id) (items st)) /\
  (Forall (fun item => Item.id item <> id) (items st) ->
   items (deleteItem id (addItem now st)) = items st).
Proof.
  cbv zeta. split.
  - intros Hs. apply Forall_lookup. intros k item Hk.
    rewrite (Hs k item Hk). apply lookup_lt_Some in Hk. lia.
  - intros Hno. rewrite items_deleteItem, items_addItem.
    assert (List.filter
              (fun item => negb (Item.id item =? Z.of_nat (length (items st)) + 1)%Z)
              (items st) = items st) as Hkeep.
    { apply filter_all_true. eapply Forall_impl; [exact Hno|].
      intros x Hx. simpl in *. by apply negb_true_iff, Z.eqb_neq. }
    destruct (valid (form st)); [|exact Hkeep].
    rewrite List.filter_app, Hkeep. simpl. rewrite Z.eqb_refl. simpl.
    apply app_nil_r.
Qed.

(** ** The search text *)

Lemma toLowerCase_length s : String.length (toLowerCase s) = String.length s.
Proof. induction s as [|c s IH]; simpl; [reflexivity | by rewrite IH]. Qed.

Lemma truthy_length s : truthy s = (0 <? String.length s)%nat.
Proof. by destruct s. Qed.

Lemma toLowerCase_unit_idem c :
  toLowerCase_unit (toLowerCase_unit c) = toLowerCase_unit c.
Proof.
  destruct c as [[] [] [] [] [] [] [] []]; reflexivity.
Qed.

Lemma toLowerCase_idem s : toLowerCase (toLowerCase s) = toLowerCase s.
Proof.
  induction s as [|c s IH]; simpl; [reflexivity|].
  by rewrite toLowerCase_unit_idem, IH.
Qed.

(** X7.  The search is blind to case: two search texts that differ only in
    the case of their letters select the same items, in the same order, in
    every mode; in particular a text and its lower-case form do. *)
Theorem search_ignores_case (s s' : string) (st : AppState) :
  (toLowerCase s = toLowerCase s' ->
   filteredItems (setSearchName s st) = filteredItems (setSearchName s' st)) /\
  filteredItems (setSearchName (toLowerCase s) st) = filteredItems (setSearchName s st).
Proof.
  assert (forall u u', toLowerCase u = toLowerCase u' ->
            filteredItems (setSearchName u st) = filteredItems (setSearchName u' st))
    as Hgen.
  { intros u u' E.
    assert (forall item, keep (setSearchName u st) item = keep (setSearchName u' st) item)
      as Hk.
    { intros item. unfold keep, namePredicate. simpl.
      rewrite !truthy_length, <- (toLowerCase_length u), <- (toLowerCase_length u'), E.
      reflexivity. }
    unfold filteredItems. simpl.
    rewrite (filter_ext _ _ Hk). reflexivity. }
  split; [apply Hgen|]. apply Hgen, toLowerCase_idem.
Qed.

(** ** Pages *)

Lemma totalPages_nonneg st : (0 <= totalPages st)%Z.
Proof.
  pose proof (Math_ceil_div_bounds (Z.of_nat (length (filteredItems st))) 10
                ltac:(lia)) as Hb.
  unfold totalPages, itemsPerPage. lia.
Qed.

Lemma Array_slice_chunk {A} (l : list A) (k : nat) :
  Array_slice (Z.of_nat k) (Z.of_nat k + 10) l = take 10 (drop k l).
Proof.
  unfold Array_slice, relativeIndex.
  destruct (Z.ltb_spec (Z.of_nat k) 0) as [Hneg|_]; [lia|].
  destruct (Z.ltb_spec (Z.of_nat k + 10) 0) as [Hneg|_]; [lia|].
  destruct (decide (k <= length l)) as [Hk|Hk].
  - replace (Z.to_nat (Z.min (Z.of_nat k) (Z.of_nat (length l)))) with k by lia.
    destruct (decide (length l - k <= 10)) as [Hs|Hs].
    + rewrite !take_ge; [reflexivity | |]; rewrite length_drop; lia.
    + f_equal. lia.
  - rewrite (drop_ge l k) by lia.
    rewrite (drop_ge l) by lia. by rewrite !take_nil.
Qed.

Lemma currentItems_atPage st p :
  (1 <= p)%Z ->
  currentItems (atPage p st) =
    take 10 (drop (10 * (Z.to_nat p - 1)) (filteredItems st)).
Proof.
  intros Hp. unfold currentItems, indexOfFirstItem, indexOfLastItem, itemsPerPage.
  change (filteredItems (atPage p st)) with (filteredItems st).
  change (currentPage (atPage p st)) with p.
  replace (p * 10 - 10)%Z with (Z.of_nat (10 * (Z.to_nat p - 1))) by lia.
  replace (p * 10)%Z with (Z.of_nat (10 * (Z.to_nat p - 1)) + 10)%Z by lia.
  apply Array_slice_chunk.
Qed.

(** X8.  Page [p], for [p] from 1 on, shows the items of the view from
    position [10 (p - 1)] on, ten at most: exactly ten on every page before
    the last, at least one on every page up to [totalPages], and none on a
    page beyond it. *)
Theorem pages_hold_ten (st : AppState) (p : Z) :
  (1 <= p)%Z ->
  let page := currentItems (atPage p st) in
  page = take 10 (drop (10 * (Z.to_nat p - 1)) (filteredItems st)) /\
  length page <= 10 /\
  ((p < totalPages st)%Z -> length page = 10) /\
  (0 < length page <-> (p <= totalPages st)%Z).
Proof.
  intros Hp page. subst page. rewrite (currentItems_atPage st p Hp).
  pose proof (Math_ceil_div_bounds (Z.of_nat (length (filteredItems st))) 10
                ltac:(lia)) as Hb.
  unfold totalPages, itemsPerPage.
  rewrite length_take, length_drop.
  split; [reflexivity|]. split; [lia|]. split; [|split]; lia.
Qed.

(** X9.  Along any run of the page the page number never falls below 0, and
    on page 0 nothing is shown, whatever the view holds. *)
Theorem page_never_negative (stored : list Item.t) (es : list Event) :
  let st := run (initialState stored) es in
  (0 <= currentPage st)%Z /\
  (currentPage st = 0%Z -> currentItems st = []).
Proof.
  simpl. split.
  - induction es as [|e es IH] using rev_ind; [simpl; lia|].
    rewrite run_app. simpl.
    set (st := run (initialState stored) es) in *.
    destruct e; simpl; by_mode st; try exact IH.
    + unfold addItem, validate. by destruct (valid (form st)).
    + by destruct (currentItems st !! i).
    + by destruct (currentItems st !! i).
    + destruct (showModal st); [|exact IH].
      unfold updateItem, validate.
      destruct (valid (form st)); simpl; [|exact IH].
      by destruct (Form.editId (form st)).
    + by destruct (showModal st).
    + lia.
    + pose proof (totalPages_nonneg st). lia.
  - intros Hz. unfold currentItems, indexOfFirstItem, indexOfLastItem, itemsPerPage.
    rewrite Hz. unfold Array_slice, relativeIndex. simpl.
    replace (Z.to_nat _) with 0%nat by lia. reflexivity.
Qed.

Lemma chunks_concat {A} (n : nat) : forall l : list A,
  length l <= 10 * n ->
  concat (map (fun k => take 10 (drop (10 * k) l)) (seq 0 n)) = l.
Proof.
  induction n as [|n IH]; intros l Hl.
  - destruct l; [reflexivity | simpl in Hl; lia].
  - rewrite <- cons_seq, <- seq_shift, map_cons, map_map, concat_cons.
    rewrite Nat.mul_0_r, drop_0.
    rewrite (map_ext _ (fun k => take 10 (drop (10 * k) (drop 10 l)))).
    + rewrite IH; [apply take_drop | rewrite length_drop; lia].
    + intros k. rewrite drop_drop. do 2 f_equal. lia.
Qed.

(** X10.  The pages from 1 to [totalPages], one after the other, are the
    view: every item that passes the filter is on exactly one page, in the
    order of the view. *)
Theorem pages_cover_the_view (st : AppState) :
  concat (map (fun p => currentItems (atPage p st)) (pageNumbers st)) =
    filteredItems st.
Proof.
  unfold pageNumbers. rewrite map_map.
  rewrite (map_ext _ (fun k => take 10 (drop (10 * k) (filteredItems st)))).
  - apply chunks_concat.
    pose proof (Math_ceil_div_bounds (Z.of_nat (length (filteredItems st))) 10
                  ltac:(lia)) as Hb.
    unfold totalPages, itemsPerPage. lia.
  - intros k. rewrite currentItems_atPage by lia. do 2 f_equal. lia.
Qed.

(** X11.  From a page between 1 and [totalPages] the two paging buttons
    lead to a page between 1 and [totalPages]: the next one, except on the
    last page, and the previous one, except on the first; on those the
    button changes nothing. *)
Theorem paging_stays_in_range (st : AppState) :
  (1 <= currentPage st <= totalPages st)%Z ->
  let next := currentPage (step st ClickProxima) in
  let prev := currentPage (step st ClickAnterior) in
  (1 <= next <= totalPages st)%Z /\
  (1 <= prev <= totalPages st)%Z /\
  next = (if (currentPage st =? totalPages st)%Z then currentPage st
          else currentPage st + 1)%Z /\
  prev = (if (currentPage st =? 1)%Z then currentPage st
          else currentPage st - 1)%Z.
Proof.
  intros Hp. simpl.
  destruct (Z.eqb_spec (currentPage st) (totalPages st)),
           (Z.eqb_spec (currentPage st) 1); lia.
Qed.

(** X12.  Only the two paging buttons move the page: adding, deleting,
    editing, or changing the filter leaves the page number as it is, even
    when the view shrinks below it.  The number of pages does not depend on
    the mode, the sort order or the page. *)
Theorem only_paging_moves_the_page (st : AppState) (e : Event) :
  isPaging e = false ->
  currentPage (step st e) = currentPage st /\
  forall m o p,
    totalPages (atPage p (setSortOrder o (setActiveFilter m st))) = totalPages st.
Proof.
  intros He. split.
  - destruct e; simpl; by_mode st; try reflexivity; try discriminate.
    + unfold addItem, validate. by destruct (valid (form st)).
    + by destruct (currentItems st !! i).
    + by destruct (currentItems st !! i).
    + destruct (showModal st); [|reflexivity].
      unfold updateItem, validate.
      destruct (valid (form st)); simpl; [|reflexivity].
      by destruct (Form.editId (form st)).
    + by destruct (showModal st).
  - intros m o p. unfold totalPages. by rewrite !filteredItems_length.
Qed.

(** ** What the sorts achieve *)

Section SortedOutput.
Context {A : Type} (comparefn : A -> A -> option Z) (P : A -> Prop).

Local Abbreviation R := (fun a b : A => (SortCompare comparefn a b <= 0)%Z).

Hypothesis total : forall a b, P a -> P b -> R a b \/ R b a.
Hypothesis trans : forall a b c, P a -> P b -> P c -> R a b -> R b c -> R a c.

Lemma sort_insert_sorted x l :
  P x -> Forall P l ->
  StronglySorted R l -> StronglySorted R (sort_insert comparefn x l).
Proof.
  intros Hx Hl Hs. induction Hs as [|y l Hs IH Hy]; simpl.
  - repeat constructor.
  - apply Forall_cons in Hl as [Py Hl].
    destruct (Z.leb_spec (SortCompare comparefn x y) 0) as [Hxy|Hxy].
    + constructor; [by constructor|].
      constructor; [exact Hxy|].
      rewrite Forall_forall in Hy, Hl. apply Forall_forall. intros z Hz.
      apply (trans x y z); auto.
    + constructor; [by apply IH|].
      rewrite sort_insert_Permutation. constructor; [|exact Hy].
      destruct (total x y Hx Py) as [Hle|Hle]; [simpl in Hle; lia | exact Hle].
Qed.

Lemma Array_sort_sorted l :
  Forall P l -> StronglySorted R (Array_sort comparefn l).
Proof.
  induction l as [|x l IH]; intros Hl; simpl; [constructor|].
  apply Forall_cons in Hl as [Hx Hl].
  apply sort_insert_sorted; [exact Hx | | by apply IH].
  by rewrite Array_sort_Permutation.
Qed.

End SortedOutput.

Lemma StronglySorted_impl {A} (P : A -> Prop) (R R' : A -> A -> Prop) l :
  (forall a b, P a -> P b -> R a b -> R' a b) ->
  Forall P l -> StronglySorted R l -> StronglySorted R' l.
Proof.
  intros HR Hl Hs. induction Hs as [|x l Hs IH Hx]; [constructor|].
  apply Forall_cons in Hl as [Px Hl].
  constructor; [by apply IH|].
  rewrite Forall_forall in Hx, Hl. apply Forall_forall. intros y Hy.
  apply HR; auto.
Qed.

Lemma Forall_filter_keep (P : Item.t -> Prop) st :
  Forall P (items st) -> Forall P (List.filter (keep st) (items st)).
Proof.
  intros Hl. apply Forall_forall. intros x Hx.
  apply list_elem_of_In, filter_In in Hx as [Hx _].
  rewrite Forall_forall in Hl. apply Hl. by apply list_elem_of_In.
Qed.

(** X13.  Under the name mode the view is in the order of [localeCompare]
    on the names: no item is followed, anywhere later in the view, by one
    whose name compares as smaller.  This rests on [localeCompare] being a
    consistent comparison (any two names are comparable, and the order is
    transitive). *)
Theorem name_sort_is_sorted (st : AppState) :
  (forall s t, (String_localeCompare s t <= 0)%Z \/ (String_localeCompare t s <= 0)%Z) ->
  (forall s t u, (String_localeCompare s t <= 0)%Z -> (String_localeCompare t u <= 0)%Z ->
                 (String_localeCompare s u <= 0)%Z) ->
  activeFilter st = name ->
  StronglySorted byNome (filteredItems st).
Proof.
  intros Htotal Htrans Hm. unfold filteredItems. rewrite Hm.
  apply (Array_sort_sorted compareNome (fun _ => True)).
  - intros a b _ _. apply Htotal.
  - intros a b c _ _ _. apply Htrans.
  - apply Forall_forall. auto.
Qed.

Lemma compareData_byData order a b :
  parsable a -> parsable b ->
  (SortCompare (compareData order) a b <= 0)%Z <-> byData order a b.
Proof.
  intros [ta Ha] [tb Hb]. unfold SortCompare, compareData, byData, time_le.
  rewrite Ha, Hb. destruct order; simpl; lia.
Qed.

(** X14.  Under the date mode, when the engine can read the creation date
    of every stored item, the view is in the order of the creation times:
    oldest first for [asc], newest first for [desc]. *)
Theorem date_sort_is_sorted (st : AppState) :
  Forall parsable (items st) ->
  activeFilter st = date ->
  StronglySorted (byData (sortOrder st)) (filteredItems st).
Proof.
  intros Hp Hm. unfold filteredItems. rewrite Hm.
  pose proof (Forall_filter_keep parsable st Hp) as Hf.
  apply (StronglySorted_impl parsable
           (fun a b => (SortCompare (compareData (sortOrder st)) a b <= 0)%Z)).
  - intros a b Pa Pb. by apply compareData_byData.
  - by rewrite Array_sort_Permutation.
  - apply (Array_sort_sorted (compareData (sortOrder st)) parsable);
      [| |exact Hf].
    + intros a b Pa Pb. rewrite !compareData_byData by assumption.
      destruct Pa as [ta Ha], Pb as [tb Hb].
      unfold byData, time_le. rewrite Ha, Hb. destruct (sortOrder st); lia.
    + intros a b c Pa Pb Pc. rewrite !compareData_byData by assumption.
      destruct (sortOrder st); simpl; intros; eapply time_le_trans; eassumption.
Qed.

(** X15.  The name sort is stable as well: when [localeCompare] finds a
    name equal to itself, the items of the view that have a given name come
    in the order they have in the stored collection. *)
Theorem name_sort_is_stable (st : AppState) (n : string) :
  (forall s, (String_localeCompare s s <= 0)%Z) ->
  activeFilter st = name ->
  List.filter (fun item => String.eqb (Item.nome item) n) (filteredItems st) =
    List.filter (fun item => String.eqb (Item.nome item) n && keep st item) (items st).
Proof.
  intros Hrefl Hm. unfold filteredItems. rewrite Hm.
  rewrite Array_sort_filter.
  - apply filter_filter_and.
  - intros x y Hx Hy. apply String.eqb_eq in Hx, Hy.
    unfold SortCompare, compareNome. rewrite Hx, Hy. apply Hrefl.
Qed.

End Further.

(** * The further statements at concrete inputs *)

Lemma string_compare_trans : forall s t u,
  String.compare s t <> Gt -> String.compare t u <> Gt -> String.compare s u <> Gt.
Proof.
  induction s as [|a s IH]; intros [|b t] [|c u]; simpl; try congruence.
  unfold Ascii.compare.
  destruct (N.compare_spec (N_of_ascii a) (N_of_ascii b)),
           (N.compare_spec (N_of_ascii b) (N_of_ascii c)),
           (N.compare_spec (N_of_ascii a) (N_of_ascii c));
    try congruence; try lia; eauto.
Qed.

Lemma example_localeCompare_le s t :
  (example_localeCompare s t <= 0)%Z <-> String.compare s t <> Gt.
Proof.
  unfold example_localeCompare. destruct (String.compare s t); split; try lia; congruence.
Qed.

Lemma example_localeCompare_total s t :
  (example_localeCompare s t <= 0)%Z \/ (example_localeCompare t s <= 0)%Z.
Proof.
  rewrite !example_localeCompare_le, (String.compare_antisym t s).
  destruct (String.compare s t); simpl; [left|left|right]; congruence.
Qed.

Lemma example_localeCompare_trans s t u :
  (example_localeCompare s t <= 0)%Z -> (example_localeCompare t u <= 0)%Z ->
  (example_localeCompare s u <= 0)%Z.
Proof. rewrite !example_localeCompare_le. apply string_compare_trans. Qed.

Example twelve_second_page :
  Item.id <$> currentItems (H := exampleRuntime) (atPage 2 twelve) = [11%Z; 12%Z] /\
  totalPages (H := exampleRuntime) twelve = 2%Z.
Proof. split; reflexivity. Qed.

(** Deleting the two items of the second page leaves the page number at 2,
    where nothing is shown any more. *)
Example page_left_empty_by_deletions :
  let st := run (H := exampleRuntime) (atPage 2 twelve) [ClickExcluir 0; ClickExcluir 0] in
  currentPage st = 2%Z /\
  totalPages (H := exampleRuntime) st = 1%Z /\
  currentItems (H := exampleRuntime) st = [].
Proof. repeat split. Qed.

Lemma edit_then_save_only_stamps_first_item :
  let st := afterTwoAdds in
  let item := Item.mk 1 "one" "first" t1 None baixa in
  currentItems (H := exampleRuntime) st !! 0 = Some item /\
  itemValid item /\
  let st' := run (H := exampleRuntime) st [ClickEditar 0; ClickAtualizar t3] in
  committed st' /\
  (forall j x, items st !! j = Some x ->
     items st' !! j =
       Some (if (Item.id x =? Item.id item)%Z
             then overwritten (Item.nome item) (Item.descricao item)
                              (Item.prioridade item) t3 x
             else x)) /\
  (forall j, items st !! j = Some item -> items st' !! j = Some (stamped t3 item)).
Proof.
  assert (itemValid (Item.mk 1 "one" "first" t1 None baixa)) as Hv
    by (unfold itemValid; simpl; lia).
  split; [reflexivity|]. split; [exact Hv|].
  exact (edit_then_save_only_stamps (H := exampleRuntime) afterTwoAdds 0
           (Item.mk 1 "one" "first" t1 None baixa) t3 eq_refl Hv).
Defined.

Lemma cancel_discards_the_edit_second_item :
  let st := afterTwoAdds in
  let es := [ChangeNome "x"; ChangePrioridade media] in
  currentItems (H := exampleRuntime) st !! 1 =
    Some (Item.mk 2 "two" "second" t2 None alta) /\
  forallb isFormChange es = true /\
  run (H := exampleRuntime) st (ClickEditar 1 :: es ++ [ClickCancelar]) = clearForm st.
Proof.
  split; [reflexivity|]. split; [reflexivity|].
  exact (cancel_discards_the_edit (H := exampleRuntime) afterTwoAdds 1
           (Item.mk 2 "two" "second" t2 None alta)
           [ChangeNome "x"; ChangePrioridade media] eq_refl eq_refl).
Defined.

Lemma items_stay_valid_from_storage :
  let stored := [Item.mk 5 "kept" "from storage" t1 None media] in
  Forall itemValid stored /\
  Forall itemValid (items (run (H := exampleRuntime) (initialState stored) twoAdds)).
Proof.
  assert (Forall itemValid [Item.mk 5 "kept" "from storage" t1 None media]) as Hs.
  { apply Forall_singleton. unfold itemValid; simpl; lia. }
  split; [exact Hs|].
  exact (items_stay_valid (H := exampleRuntime) _ twoAdds Hs).
Defined.

Lemma add_then_delete_restores_after_two :
  let st := withForm (Form.setDescricao "third") (withForm (Form.setNome "three") afterTwoAdds) in
  sequentialIds (items st) /\
  items (deleteItem 3 (addItem t3 st)) = items st.
Proof.
  set (st := withForm (Form.setDescricao "third")
               (withForm (Form.setNome "three") afterTwoAdds)).
  assert (sequentialIds (items st)) as Hs.
  { intros [|[|k]] item; simpl; intros [= <-]; reflexivity. }
  split; [exact Hs|].
  exact (proj2 (add_then_delete_restores t3 st)
               (proj1 (add_then_delete_restores t3 st) Hs)).
Defined.

Lemma search_ignores_case_ban :
  toLowerCase "Ban" = toLowerCase "bAN" /\
  filteredItems (H := exampleRuntime) (setSearchName "Ban" afterTwoAdds) =
    filteredItems (H := exampleRuntime) (setSearchName "bAN" afterTwoAdds).
Proof.
  split; [reflexivity|].
  exact (proj1 (search_ignores_case (H := exampleRuntime) "Ban" "bAN" afterTwoAdds)
               eq_refl).
Defined.

Lemma pages_hold_ten_second_of_twelve :
  (1 <= 2)%Z /\
  let page := currentItems (H := exampleRuntime) (atPage 2 twelve) in
  page = take 10 (drop (10 * (Z.to_nat 2 - 1)) (filteredItems (H := exampleRuntime) twelve)) /\
  length page <= 10 /\
  ((2 < totalPages (H := exampleRuntime) twelve)%Z -> length page = 10) /\
  (0 < length page <-> (2 <= totalPages (H := exampleRuntime) twelve)%Z).
Proof.
  assert (1 <= 2)%Z as Hp by discriminate.
  split; [exact Hp|].
  exact (pages_hold_ten (H := exampleRuntime) twelve 2 Hp).
Defined.

Lemma paging_stays_in_range_of_twelve :
  (1 <= currentPage twelve <= totalPages (H := exampleRuntime) twelve)%Z /\
  currentPage (step (H := exampleRuntime) twelve ClickProxima) = 2%Z /\
  currentPage (step (H := exampleRuntime) twelve ClickAnterior) = 1%Z.
Proof.
  assert (1 <= currentPage twelve <= totalPages (H := exampleRuntime) twelve)%Z as Hp
    by (split; discriminate).
  split; [exact Hp|].
  pose proof (paging_stays_in_range (H := exampleRuntime) twelve Hp) as (_ & _ & Hn & Hv).
  split; [exact Hn | exact Hv].
Defined.

Lemma only_paging_moves_the_page_on_delete :
  let st := atPage 2 twelve in
  isPaging (ClickExcluir 0) = false /\
  currentPage (step (H := exampleRuntime) st (ClickExcluir 0)) = currentPage st /\
  forall m o p,
    totalPages (H := exampleRuntime) (atPage p (setSortOrder o (setActiveFilter m st))) =
      totalPages (H := exampleRuntime) st.
Proof.
  split; [reflexivity|].
  exact (only_paging_moves_the_page (H := exampleRuntime) (atPage 2 twelve)
           (ClickExcluir 0) eq_refl).
Defined.

Example underNameMode_view :
  Item.nome <$> filteredItems (H := exampleRuntime) underNameMode = ["one"; "two"] /\
  Item.nome <$> filteredItems (H := exampleRuntime)
                  (setItems (@rev Item.t) underNameMode) = ["one"; "two"].
Proof. split; reflexivity. Qed.

Lemma name_sort_is_sorted_underNameMode :
  activeFilter underNameMode = name /\
  StronglySorted (byNome (H := exampleRuntime))
                 (filteredItems (H := exampleRuntime) underNameMode).
Proof.
  split; [reflexivity|].
  exact (name_sort_is_sorted (H := exampleRuntime) underNameMode
           example_localeCompare_total example_localeCompare_trans eq_refl).
Defined.

Lemma date_sort_is_sorted_sameSecond :
  Forall (parsable (H := exampleRuntime)) (items sameSecond) /\
  activeFilter sameSecond = date /\
  StronglySorted (byData (H := exampleRuntime) (sortOrder sameSecond))
                 (filteredItems (H := exampleRuntime) sameSecond).
Proof.
  assert (Forall (parsable (H := exampleRuntime)) (items sameSecond)) as Hp.
  { repeat (apply Forall_cons; split; [eexists; reflexivity|]).
    constructor. }
  split; [exact Hp|]. split; [reflexivity|].
  exact (date_sort_is_sorted (H := exampleRuntime) sameSecond Hp eq_refl).
Defined.

Lemma name_sort_is_stable_on_namesakes :
  let st := namesakes in
  (forall s, (example_localeCompare s s <= 0)%Z) /\
  activeFilter st = name /\
  Item.id <$> filteredItems (H := exampleRuntime) st = [3%Z; 2%Z; 1%Z] /\
  List.filter (fun item => String.eqb (Item.nome item) "same")
              (filteredItems (H := exampleRuntime) st) =
    List.filter (fun item => String.eqb (Item.nome item) "same" && keep st item)
                (items st).
Proof.
  assert (forall s, (example_localeCompare s s <= 0)%Z) as Hrefl.
  { intros s. unfold example_localeCompare.
    replace (String.compare s s) with Eq; [reflexivity|].
    induction s as [|c s IH]; simpl; [reflexivity|].
    unfold Ascii.compare. by rewrite N.compare_refl. }
  split; [exact Hrefl|]. split; [reflexivity|]. split; [reflexivity|].
  exact (name_sort_is_stable (H := exampleRuntime) namesakes "same" Hrefl eq_refl).
Defined.
